(** * The raycaster shell [main_sdl.c]: model and properties

    The file embeds the SDL front end of the side-by-side raycaster
    ([draw_buffer], [process_event] and [main] of [main_sdl.c]) as Rocq
    functions and proves the properties the design document states about
    it.  The core the shell calls into ([GameMove], [RendererTraceFrame],
    [RendererDrawFPS], the two ray casters) lives in other translation
    units: the shell model takes those entry points as the fields of the
    class [Core], and the modules [Renderer] and [Game] further down model
    them from the design document where a property is about the core
    itself. *)

From Stdlib Require Import ZArith Lia Bool.
From stdpp Require Import base list.

Local Open Scope Z_scope.

(** ** Machine integers *)

Definition wrap64 (z : Z) : Z := z mod 2 ^ 64.
Definition wrap32 (z : Z) : Z := z mod 2 ^ 32.

(** The time step as the design document and the comment above the call
    word it: the elapsed ticks on a scale of 256 units per second. *)
Definition documented_elapsedTimeUnits (ticks freq : Z) : Z :=
  ticks * 256 / freq.

(** ** SDL constants used by the shell (values of SDL2's headers) *)

Definition SDL_QUIT : Z := 0x100.
Definition SDL_KEYDOWN : Z := 0x300.
Definition SDL_KEYUP : Z := 0x301.
Definition SDLK_ESCAPE : Z := 27.
Definition SDLK_RIGHT : Z := 0x4000004F.
Definition SDLK_LEFT : Z := 0x40000050.
Definition SDLK_DOWN : Z := 0x40000051.
Definition SDLK_UP : Z := 0x40000052.

(** Pixel formats a texture can be created with; the shell only ever uses
    [SDL_PIXELFORMAT_ABGR8888]. *)
Inductive PixelFormat := SDL_PIXELFORMAT_ABGR8888 | SDL_PIXELFORMAT_RGB24.

Definition bytes_per_pixel (f : PixelFormat) : Z :=
  match f with
  | SDL_PIXELFORMAT_ABGR8888 => 4
  | SDL_PIXELFORMAT_RGB24 => 3
  end.

(** The fields of [SDL_Event] that [process_event] reads:
    [event->type], [event->key.repeat] and [event->key.keysym.sym]. *)
Record SDL_Event := mkEvent {
  ev_type : Z;
  ev_repeat : Z;
  ev_sym : Z
}.

Record SDL_Rect := mkRect { r_x : Z; r_y : Z; r_w : Z; r_h : Z }.

(** ** [process_event]

    The two [int *] out-parameters are passed in and returned; the result
    is [(quit, (moveDirection, rotateDirection))]. *)
Definition process_event (event : SDL_Event) (moveDirection rotateDirection : Z)
  : bool * (Z * Z) :=
  if ev_type event =? SDL_QUIT then
    (true, (moveDirection, rotateDirection))
  else if ((ev_type event =? SDL_KEYDOWN) || (ev_type event =? SDL_KEYUP))
          && (ev_repeat event =? 0) then
    let p := ev_type event =? SDL_KEYDOWN in
    let sym := ev_sym event in
    if sym =? SDLK_ESCAPE then (true, (moveDirection, rotateDirection))
    else if sym =? SDLK_UP then
      (false, ((if p then 1 else 0), rotateDirection))
    else if sym =? SDLK_DOWN then
      (false, ((if p then -1 else 0), rotateDirection))
    else if sym =? SDLK_LEFT then
      (false, (moveDirection, (if p then -1 else 0)))
    else if sym =? SDLK_RIGHT then
      (false, (moveDirection, (if p then 1 else 0)))
    else (false, (moveDirection, rotateDirection))
  else (false, (moveDirection, rotateDirection)).

(** The events on which [process_event] asks for the loop to end: the
    window being closed, or the escape key going down or up. *)
Definition asks_to_quit (event : SDL_Event) : Prop :=
  ev_type event = SDL_QUIT \/
  ((ev_type event = SDL_KEYDOWN \/ ev_type event = SDL_KEYUP) /\
   ev_repeat event = 0 /\ ev_sym event = SDLK_ESCAPE).

(** ** Pixels as bytes

    A framebuffer is a [uint32_t] array; [memcpy] moves its object
    representation.  [host_bytes be p] is that representation of one
    pixel on a host that is big-endian when [be] holds and little-endian
    otherwise. *)
Definition le_bytes (p : Z) : list Z :=
  [Z.land p 255; Z.land (Z.shiftr p 8) 255;
   Z.land (Z.shiftr p 16) 255; Z.land (Z.shiftr p 24) 255].

Definition host_bytes (be : bool) (p : Z) : list Z :=
  if be then rev (le_bytes p) else le_bytes p.

Definition le_word (b0 b1 b2 b3 : Z) : Z :=
  Z.lor b0 (Z.lor (Z.shiftl b1 8) (Z.lor (Z.shiftl b2 16) (Z.shiftl b3 24))).

Fixpoint buffer_bytes (be : bool) (fb : list Z) : list Z :=
  match fb with
  | [] => []
  | p :: fb' => host_bytes be p ++ buffer_bytes be fb'
  end.

(** Reading texture memory back as native 32-bit pixels. *)
Fixpoint bytes_pixels (be : bool) (n : nat) (bs : list Z) : list Z :=
  match n with
  | O => []
  | S n' =>
      match bs with
      | b0 :: b1 :: b2 :: b3 :: bs' =>
          (if be then le_word b3 b2 b1 b0 else le_word b0 b1 b2 b3)
            :: bytes_pixels be n' bs'
      | _ => []
      end
  end.

(** [memcpy dst src n]: the first [n] bytes of [dst] are replaced by the
    first [n] bytes of [src]. *)
Definition memcpy (dst src : list Z) (n : nat) : list Z :=
  take n src ++ drop n dst.

(** The channels of one packed ABGR8888 pixel: alpha in the top byte,
    then blue, green, and red in the low byte. *)
Definition abgr_channels (p : Z) : Z * Z * Z * Z :=
  (Z.land (Z.shiftr p 24) 255, Z.land (Z.shiftr p 16) 255,
   Z.land (Z.shiftr p 8) 255, Z.land p 255).

Inductive Backend := FloatPoint | FixedPoint.
Inductive Buffer := floatBuffer_id | fixedBuffer_id.
Inductive Texture := floatTexture | fixedTexture.

(** ** What the shell is compiled against

    [SCREEN_WIDTH], [SCREEN_HEIGHT] and [SCREEN_SCALE] come from
    [raycaster.h]; the game type and the core entry points come from
    [game.h] and [renderer.h].  [RendererTraceFrame] and [RendererDrawFPS]
    are taken as buffer transformers that leave the game alone, [GameMove]
    as a transformer of the game.  [big_endian] is the byte order of the
    host. *)
Class Core := {
  SCREEN_WIDTH : Z;
  SCREEN_HEIGHT : Z;
  SCREEN_SCALE : Z;
  big_endian : bool;
  G : Type;
  GameConstruct : G;
  GameMove : G -> Z -> Z -> Z -> G;
  RendererTraceFrame : Backend -> G -> list Z -> list Z;
  RendererDrawFPS : list Z -> Z -> list Z
}.

(** ** The shell *)
Section Shell.

Context `{Core}.

(** Calls the shell makes to its collaborators, in program order. *)
Inductive Call :=
| call_SDL_Init
| call_printf
| call_SDL_CreateWindow (w h : Z)
| call_GameConstruct
| call_RayCasterFloatConstruct
| call_RayCasterFixedConstruct
| call_RendererConstruct (b : Backend)
| call_SDL_GetPerformanceFrequency
| call_SDL_GetPerformanceCounter
| call_SDL_CreateRenderer
| call_SDL_CreateTexture (t : Texture) (fmt : PixelFormat) (w h : Z)
| call_RendererTraceFrame (r : Backend) (g : G) (b : Buffer)
| call_RendererDrawFPS (b : Buffer) (value : Z)
| call_SDL_LockTexture (t : Texture)
| call_fprintf
| call_exit (code : Z)
| call_memcpy (t : Texture) (b : Buffer) (bytes : list Z)
| call_SDL_UnlockTexture (t : Texture)
| call_SDL_RenderCopy (t : Texture) (r : SDL_Rect)
| call_SDL_RenderPresent
| call_SDL_PollEvent
| call_GameMove (m r elapsed : Z)
| call_SDL_DestroyTexture (t : Texture)
| call_SDL_DestroyRenderer
| call_SDL_DestroyWindow
| call_Destruct (b : Backend)
| call_SDL_Quit.

(** The locals of [main] that live across loop iterations, together with
    SDL's queue of pending events. *)
Record Shell := mkShell {
  game : G;
  floatBuffer : list Z;
  fixedBuffer : list Z;
  moveDirection : Z;
  rotateDirection : Z;
  isExiting : bool;
  tickCounter : Z;
  fpsCounter : Z;
  fpsAccumulator : Z;
  displayFPS : Z;
  event_queue : list SDL_Event
}.

(** What the platform answers during one loop iteration: the return
    values of the two [SDL_LockTexture] calls, the events that have
    arrived by the time [SDL_PollEvent] looks, and the value of
    [SDL_GetPerformanceCounter]. *)
Record Frame := mkFrame {
  lock_fixed : Z;
  lock_float : Z;
  arrivals : list SDL_Event;
  counter : Z
}.

(** What the platform answers before the loop: the results of [SDL_Init]
    and [SDL_CreateWindow], the performance frequency, the first counter
    value, and the contents of the two uninitialised frame buffers. *)
Record Env := mkEnv {
  init_result : Z;
  window_created : bool;
  frequency : Z;
  counter0 : Z;
  floatBuffer0 : list Z;
  fixedBuffer0 : list Z
}.

Inductive Step := Next (s : Shell) | Exit (code : Z) | Undefined.

(** [draw_buffer]; [rc] is the return value of [SDL_LockTexture]. *)
Definition draw_buffer (rc : Z) (sdlTexture : Texture) (b : Buffer)
    (fb : list Z) (dx : Z) : list Call * bool :=
  if negb (rc =? 0) then
    ([call_SDL_LockTexture sdlTexture; call_fprintf; call_exit 1], false)
  else
    ([call_SDL_LockTexture sdlTexture;
      call_memcpy sdlTexture b
        (take (Z.to_nat (SCREEN_WIDTH * SCREEN_HEIGHT * 4))
              (buffer_bytes big_endian fb));
      call_SDL_UnlockTexture sdlTexture;
      call_SDL_RenderCopy sdlTexture
        (mkRect (dx * SCREEN_SCALE) 0
                (SCREEN_WIDTH * SCREEN_SCALE) (SCREEN_HEIGHT * SCREEN_SCALE))],
     true).

(** [SDL_PollEvent]: removes the next pending event from the queue, if
    there is one. *)
Definition SDL_PollEvent (pending : list SDL_Event)
  : option SDL_Event * list SDL_Event :=
  match pending with
  | [] => (None, [])
  | e :: rest => (Some e, rest)
  end.

(** The argument the shell passes as [GameMove]'s time step:
    [ticks / (SDL_GetPerformanceFrequency() >> 8)], undefined when the
    divisor is zero. *)
Definition elapsedTimeUnits (ticks freq : Z) : option Z :=
  if Z.shiftr freq 8 =? 0 then None else Some (ticks / Z.shiftr freq 8).

(** "Render both views" and "Draw FPS on both buffers". *)
Definition render_calls (s : Shell) : list Call :=
  [call_RendererTraceFrame FloatPoint (game s) floatBuffer_id;
   call_RendererTraceFrame FixedPoint (game s) fixedBuffer_id;
   call_RendererDrawFPS fixedBuffer_id (displayFPS s);
   call_RendererDrawFPS floatBuffer_id (displayFPS s)].

Definition rendered_float (s : Shell) : list Z :=
  RendererDrawFPS (RendererTraceFrame FloatPoint (game s) (floatBuffer s))
                  (displayFPS s).

Definition rendered_fixed (s : Shell) : list Z :=
  RendererDrawFPS (RendererTraceFrame FixedPoint (game s) (fixedBuffer s))
                  (displayFPS s).

(** "Timing & Game Update": the frame-rate average and the call to
    [GameMove], from the state [s] the event handling left. *)
Definition update (freq : Z) (nextCounter : Z) (s : Shell)
  : list Call * Step :=
  let ticks := wrap64 (nextCounter - tickCounter s) in
  let acc := wrap64 (fpsAccumulator s + ticks) in
  let cnt := wrap32 (fpsCounter s + 1) in
  if (60 <=? cnt) && (acc =? 0) then
    ([call_SDL_GetPerformanceCounter], Undefined)
  else
    let '(cnt', acc', fps') :=
      if 60 <=? cnt then (0, 0, wrap32 (wrap64 (freq * cnt) / acc))
      else (cnt, acc, displayFPS s) in
    match elapsedTimeUnits ticks freq with
    | None =>
        ([call_SDL_GetPerformanceCounter; call_SDL_GetPerformanceFrequency],
         Undefined)
    | Some elapsed =>
        ([call_SDL_GetPerformanceCounter; call_SDL_GetPerformanceFrequency;
          call_GameMove (moveDirection s) (rotateDirection s) elapsed],
         Next (mkShell
                 (GameMove (game s) (moveDirection s) (rotateDirection s) elapsed)
                 (floatBuffer s) (fixedBuffer s)
                 (moveDirection s) (rotateDirection s) (isExiting s)
                 nextCounter cnt' acc' fps' (event_queue s)))
    end.

(** "Event Handling": one [SDL_PollEvent], and [process_event] on the
    event it returned. *)
Definition handle_events (f : Frame) (s : Shell) : Shell :=
  match SDL_PollEvent (event_queue s ++ arrivals f) with
  | (Some event, rest) =>
      let '(quit, (m, r)) :=
        process_event event (moveDirection s) (rotateDirection s) in
      mkShell (game s) (floatBuffer s) (fixedBuffer s) m r quit
              (tickCounter s) (fpsCounter s) (fpsAccumulator s)
              (displayFPS s) rest
  | (None, rest) =>
      mkShell (game s) (floatBuffer s) (fixedBuffer s)
              (moveDirection s) (rotateDirection s) (isExiting s)
              (tickCounter s) (fpsCounter s) (fpsAccumulator s)
              (displayFPS s) rest
  end.

(** The locals after "Render both views" and "Draw FPS on both buffers". *)
Definition render (s : Shell) : Shell :=
  mkShell (game s) (rendered_float s) (rendered_fixed s)
          (moveDirection s) (rotateDirection s) (isExiting s)
          (tickCounter s) (fpsCounter s) (fpsAccumulator s)
          (displayFPS s) (event_queue s).

(** One iteration of the main loop. *)
Definition loop_body (freq : Z) (f : Frame) (s : Shell) : list Call * Step :=
  let s1 := render s in
  let '(draw1, ok1) :=
    draw_buffer (lock_fixed f) fixedTexture fixedBuffer_id (fixedBuffer s1) 0 in
  if negb ok1 then (render_calls s ++ draw1, Exit 1)
  else
    let '(draw2, ok2) :=
      draw_buffer (lock_float f) floatTexture floatBuffer_id (floatBuffer s1)
                  (SCREEN_WIDTH + 1) in
    if negb ok2 then (render_calls s ++ draw1 ++ draw2, Exit 1)
    else
      let s2 := handle_events f s1 in
      let '(upd, r) := update freq (counter f) s2 in
      (render_calls s ++ draw1 ++ draw2
         ++ [call_SDL_RenderPresent; call_SDL_PollEvent] ++ upd, r).

(** How the loop fares over a finite supply of platform answers: it ends
    because [isExiting] became true, the process leaves through [exit], an
    operation without defined behaviour is reached, or the loop is still
    going when the answers run out. *)
Inductive LoopResult :=
| loop_ended (s : Shell)
| loop_exit (code : Z)
| loop_undefined
| loop_running (s : Shell).

(** [while (!isExiting) { ... }] *)
Fixpoint main_loop (freq : Z) (frames : list Frame) (s : Shell)
  : list Call * LoopResult :=
  if isExiting s then ([], loop_ended s)
  else
    match frames with
    | [] => ([], loop_running s)
    | f :: frames' =>
        match loop_body freq f s with
        | (calls, Next s') =>
            let '(calls', r) := main_loop freq frames' s' in
            (calls ++ calls', r)
        | (calls, Exit code) => (calls, loop_exit code)
        | (calls, Undefined) => (calls, loop_undefined)
        end
    end.

(** How a run of [main] ends. *)
Inductive Stop :=
| Returned (code : Z)
| Exited (code : Z)
| Undefined_behaviour
| Running.

(** The locals of [main] when the loop is first reached. *)
Definition initial (env : Env) : Shell :=
  mkShell GameConstruct (floatBuffer0 env) (fixedBuffer0 env)
          0 0 false (counter0 env) 0 0 0 [].

Definition setup_calls : list Call :=
  [call_SDL_Init;
   call_SDL_CreateWindow (SCREEN_SCALE * (SCREEN_WIDTH * 2 + 1))
                         (SCREEN_SCALE * SCREEN_HEIGHT);
   call_GameConstruct;
   call_RayCasterFloatConstruct; call_RendererConstruct FloatPoint;
   call_RayCasterFixedConstruct; call_RendererConstruct FixedPoint;
   call_SDL_GetPerformanceFrequency; call_SDL_GetPerformanceCounter;
   call_SDL_CreateRenderer;
   call_SDL_CreateTexture fixedTexture SDL_PIXELFORMAT_ABGR8888
                          SCREEN_WIDTH SCREEN_HEIGHT;
   call_SDL_CreateTexture floatTexture SDL_PIXELFORMAT_ABGR8888
                          SCREEN_WIDTH SCREEN_HEIGHT].

Definition cleanup_calls : list Call :=
  [call_SDL_DestroyTexture floatTexture; call_SDL_DestroyTexture fixedTexture;
   call_SDL_DestroyRenderer; call_SDL_DestroyWindow;
   call_Destruct FloatPoint; call_Destruct FixedPoint].

(** [main]. *)
Definition main (env : Env) (frames : list Frame) : list Call * Stop :=
  if init_result env <? 0 then
    ([call_SDL_Init; call_printf; call_SDL_Quit], Returned 0)
  else if negb (window_created env) then
    ([call_SDL_Init;
      call_SDL_CreateWindow (SCREEN_SCALE * (SCREEN_WIDTH * 2 + 1))
                            (SCREEN_SCALE * SCREEN_HEIGHT);
      call_printf; call_SDL_Quit], Returned 0)
  else
    match main_loop (frequency env) frames (initial env) with
    | (calls, loop_ended _) =>
        (setup_calls ++ calls ++ cleanup_calls ++ [call_SDL_Quit], Returned 0)
    | (calls, loop_exit code) => (setup_calls ++ calls, Exited code)
    | (calls, loop_undefined) => (setup_calls ++ calls, Undefined_behaviour)
    | (calls, loop_running _) => (setup_calls ++ calls, Running)
    end.

(** The iterations a run goes through: the state each one starts from and
    the platform answers it consumes. *)
Fixpoint iterations (freq : Z) (frames : list Frame) (s : Shell)
  : list (Shell * Frame) :=
  if isExiting s then []
  else
    match frames with
    | [] => []
    | f :: frames' =>
        (s, f) ::
        match loop_body freq f s with
        | (_, Next s') => iterations freq frames' s'
        | _ => []
        end
    end.

(** Classification of calls. *)
Definition is_trace (c : Call) : bool :=
  match c with call_RendererTraceFrame _ _ _ => true | _ => false end.

Definition is_present (c : Call) : bool :=
  match c with
  | call_memcpy _ _ _ | call_SDL_RenderCopy _ _ | call_SDL_RenderPresent => true
  | _ => false
  end.

Definition is_poll (c : Call) : bool :=
  match c with call_SDL_PollEvent => true | _ => false end.

Definition is_move (c : Call) : bool :=
  match c with call_GameMove _ _ _ => true | _ => false end.

Definition is_construct (b : Backend) (c : Call) : bool :=
  match c, b with
  | call_RayCasterFloatConstruct, FloatPoint => true
  | call_RayCasterFixedConstruct, FixedPoint => true
  | _, _ => false
  end.

Definition is_destruct (b : Backend) (c : Call) : bool :=
  match c, b with
  | call_Destruct FloatPoint, FloatPoint => true
  | call_Destruct FixedPoint, FixedPoint => true
  | _, _ => false
  end.

(** Number of calls in a trace that satisfy [p]. *)
Definition count (p : Call -> bool) (calls : list Call) : nat :=
  length (filter (fun c => p c = true) calls).

(** Every call that satisfies [p] comes before every call that
    satisfies [q]. *)
Definition all_before (p q : Call -> bool) (calls : list Call) : Prop :=
  forall i j c d,
    calls !! i = Some c -> calls !! j = Some d ->
    p c = true -> q d = true -> (i < j)%nat.

(** Every floating-point trace is into [floatBuffer] and has the
    fixed-point trace of the same game state, into [fixedBuffer], as the
    very next call: nothing happens between the two. *)
Definition traces_back_to_back (calls : list Call) : Prop :=
  forall i g b,
    calls !! i = Some (call_RendererTraceFrame FloatPoint g b) ->
    b = floatBuffer_id /\
    calls !! S i = Some (call_RendererTraceFrame FixedPoint g fixedBuffer_id).

(** Every call that satisfies [p] has a call that satisfies [q]
    somewhere before it. *)
Definition preceded (p q : Call -> bool) (calls : list Call) : Prop :=
  forall i c,
    calls !! i = Some c -> p c = true ->
    exists j d, (j < i)%nat /\ calls !! j = Some d /\ q d = true.

Definition is_render_present (c : Call) : bool :=
  match c with call_SDL_RenderPresent => true | _ => false end.

Definition is_input_or_update (c : Call) : bool :=
  is_poll c || is_move c.

(** The data flow of one frame as the design document words it: input is
    polled, then the game state is updated, then the renderer runs, then
    the frame is presented.  [shown] is the position of an
    [SDL_RenderPresent] call in the trace of a run. *)
Definition follows_documented_flow (calls : list Call) (shown : nat) : Prop :=
  exists i j k ci cj ck,
    (i < j < k)%nat /\ (k < shown)%nat /\
    calls !! i = Some ci /\ is_poll ci = true /\
    calls !! j = Some cj /\ is_move cj = true /\
    calls !! k = Some ck /\ is_trace ck = true.

(** The life cycle of the ray casters as the design document words it:
    a caster that is constructed is torn down exactly once. *)
Definition paired_lifecycle (calls : list Call) : Prop :=
  forall b,
    count (is_construct b) calls = 1%nat ->
    count (is_destruct b) calls = 1%nat.

(** The values the [Move] contract allows for a direction. *)
Definition direction (d : Z) : Prop := d = -1 \/ d = 0 \/ d = 1.

Definition directions_ok (c : Call) : Prop :=
  match c with
  | call_GameMove m r _ => direction m /\ direction r
  | _ => True
  end.

(** The frame counter is below sixty, and the accumulated ticks and the
    shown frame rate are within their 64-bit and 32-bit types. *)
Definition counters_in_range (s : Shell) : Prop :=
  0 <= fpsCounter s < 60 /\
  0 <= fpsAccumulator s < 2 ^ 64 /\
  0 <= displayFPS s < 2 ^ 32.

(** The time step of a [GameMove] call fits an unsigned 64-bit
    integer. *)
Definition elapsed_in_range (c : Call) : Prop :=
  match c with
  | call_GameMove _ _ elapsed => 0 <= elapsed < 2 ^ 64
  | _ => True
  end.

Definition is_overlay (c : Call) : bool :=
  match c with call_RendererDrawFPS _ _ => true | _ => false end.

Definition is_sdl_quit (c : Call) : bool :=
  match c with call_SDL_Quit => true | _ => false end.

Definition is_upload (c : Call) : bool :=
  match c with call_memcpy _ _ _ => true | _ => false end.

(** Every [memcpy] into a texture copies the frame buffer of the same
    backend, comes right after the [SDL_LockTexture] of that texture, and
    is followed at once by its [SDL_UnlockTexture] and then by the
    [SDL_RenderCopy] that draws it. *)
Definition uploads_while_locked (calls : list Call) : Prop :=
  forall i t b bytes,
    calls !! i = Some (call_memcpy t b bytes) ->
    (t = fixedTexture /\ b = fixedBuffer_id \/
     t = floatTexture /\ b = floatBuffer_id) /\
    (exists j, i = S j /\ calls !! j = Some (call_SDL_LockTexture t)) /\
    calls !! S i = Some (call_SDL_UnlockTexture t) /\
    exists r, calls !! S (S i) = Some (call_SDL_RenderCopy t r).

End Shell.

(** ** The renderer, from the design document

    [renderer.c] is not part of the shell's translation unit.  The
    definitions of this module follow section 4.2 of the design document.
    A frame buffer is a list of pixels in row-major order: pixel [(x, y)]
    is element [y * width + x]. *)
Module Renderer.

(** A store through a pointer into the buffer; outside the buffer the C
    store has no defined behaviour, here it fails. *)
Definition store (buf : list Z) (i : nat) (v : Z) : option (list Z) :=
  if decide (i < length buf)%nat then Some (<[i:=v]> buf) else None.

(** A sequence of stores, in order. *)
Fixpoint store_all (ws : list (nat * Z)) (buf : list Z) : option (list Z) :=
  match ws with
  | [] => Some buf
  | (i, v) :: ws' =>
      match store buf i v with
      | Some buf' => store_all ws' buf'
      | None => None
      end
  end.

(** The value the last store to index [i] in [ws] wrote, if any. *)
Fixpoint last_write (ws : list (nat * Z)) (i : nat) : option Z :=
  match ws with
  | [] => None
  | (j, v) :: ws' =>
      match last_write ws' i with
      | Some v' => Some v'
      | None => if decide (j = i) then Some v else None
      end
  end.

(** Modelled from the spec: the RayHit of the data model ([raycaster.h]
    is missing): perpendicular distance, the face that was struck, and
    the kind of the struck cell. *)
Record RayHit := mkHit {
  hit_distance : Z;
  hit_side : bool;
  hit_cell : Z
}.

(** The corners of the screen the readout can be reserved in. *)
Inductive Corner := TopLeft | TopRight | BottomLeft | BottomRight.

Section Model.

(** Screen geometry, the ray caster behind the renderer, the projection
    constant of the inverse distance-to-height relationship, the palette,
    and the place, size and glyph pixels of the frame-rate readout. *)
Variables width height : nat.
Variables Pose Map : Type.
Variable cast : Pose -> Map -> nat -> RayHit.
Variable projection : Z.
Variables ceiling_color floor_color : Z.
Variable wall_color : Z -> bool -> Z.
Variable fps_corner : Corner.
Variables fps_width fps_height : nat.
Variable fps_pixel : Z -> nat -> nat -> Z.

(** Modelled from the spec: the wall-slice half-height of
    [RendererTraceFrame] ([renderer.c] is missing): inverse in the hit
    distance, clipped to the screen height. *)
Definition half_height (distance : Z) : Z :=
  let half := Z.of_nat height / 2 in
  if distance <=? 0 then half else Z.min half (projection / distance).

(** Modelled from the spec: the colour [RendererTraceFrame] gives to row
    [y] of a column whose ray returned [hit] ([renderer.c] is missing):
    ceiling above the slice, floor below, wall colour within. *)
Definition pixel (hit : RayHit) (y : nat) : Z :=
  let half := Z.of_nat height / 2 in
  let hh := half_height (hit_distance hit) in
  if Z.of_nat y <? half - hh then ceiling_color
  else if half + hh <=? Z.of_nat y then floor_color
  else wall_color (hit_cell hit) (hit_side hit).

(** Modelled from the spec: the stores of [RendererTraceFrame] into one
    column ([renderer.c] is missing). *)
Definition column_writes (x : nat) (hit : RayHit) : list (nat * Z) :=
  map (fun y => ((y * width + x)%nat, pixel hit y)) (seq 0 height).

(** Modelled from the spec: the stores of [RendererTraceFrame], column by
    column, one ray per column ([renderer.c] is missing). *)
Definition frame_writes (pose : Pose) (map : Map) : list (nat * Z) :=
  flat_map (fun x => column_writes x (cast pose map x)) (seq 0 width).

(** Modelled from the spec: [RendererTraceFrame] ([renderer.c] is
    missing): for every screen column one ray, and the column's pixels
    filled from its hit. *)
Definition TraceFrame (pose : Pose) (map : Map) (buf : list Z)
  : option (list Z) :=
  store_all (frame_writes pose map) buf.

(** The colour [TraceFrame] gives to the pixel at index [i]. *)
Definition color_at (pose : Pose) (map : Map) (i : nat) : Z :=
  pixel (cast pose map (i mod width)%nat) (i / width)%nat.

(** Modelled from the spec: the reserved corner region of
    [RendererDrawFPS] ([renderer.c] is missing): its top-left pixel. *)
Definition fps_origin : nat * nat :=
  match fps_corner with
  | TopLeft => (0, 0)%nat
  | TopRight => (width - fps_width, 0)%nat
  | BottomLeft => (0, height - fps_height)%nat
  | BottomRight => (width - fps_width, height - fps_height)%nat
  end.

Definition in_fps_region (i : nat) : Prop :=
  (fps_origin.1 <= i mod width < fps_origin.1 + fps_width)%nat /\
  (fps_origin.2 <= i / width < fps_origin.2 + fps_height)%nat.

(** Modelled from the spec: the stores of [RendererDrawFPS]
    ([renderer.c] is missing): the pixels of the readout, row by row. *)
Definition fps_writes (value : Z) : list (nat * Z) :=
  flat_map
    (fun ry =>
       map (fun rx =>
              (((fps_origin.2 + ry) * width + (fps_origin.1 + rx))%nat,
               fps_pixel value rx ry))
           (seq 0 fps_width))
    (seq 0 fps_height).

(** Modelled from the spec: [RendererDrawFPS] ([renderer.c] is missing):
    overlays the fixed-size readout of [value] into the reserved corner. *)
Definition DrawFPS (buf : list Z) (value : Z) : option (list Z) :=
  store_all (fps_writes value) buf.

End Model.

End Renderer.

(** ** The game state, from the design document

    [game.c] is not part of the shell's translation unit.  The definitions
    of this module follow sections 3 and 4.3 of the design document.
    Positions and angles are scaled integers. *)
Module Game.

(** Modelled from the spec: the Pose of the data model ([game.h] is
    missing): position and facing angle. *)
Record Pose := mkPose {
  pos_x : Z;
  pos_y : Z;
  angle : Z
}.

(** Modelled from the spec: the Map of the data model ([game.h] is
    missing): a grid of cell kinds, row by row; kind [0] is an empty
    cell, any other kind a wall. *)
Definition Map := list (list Z).

(** Modelled from the spec: the game state ([game.h] is missing): the
    current pose and the map. *)
Record State := mkState {
  pose : Pose;
  map : Map
}.

Definition cell_kind (m : Map) (cx cy : Z) : option Z :=
  if (cx <? 0) || (cy <? 0) then None
  else
    match m !! Z.to_nat cy with
    | Some row => row !! Z.to_nat cx
    | None => None
    end.

(** Modelled from the spec: solid cells ([game.c] is missing): a cell is
    solid when it is a wall or lies outside the grid. *)
Definition solid (m : Map) (cx cy : Z) : bool :=
  match cell_kind m cx cy with
  | Some kind => negb (kind =? 0)
  | None => true
  end.

Section Model.

(** Position units per map cell, the facing vector of an angle (scaled by
    [unit]), the two speeds, the number of angle steps in a full turn,
    and the state [ConstructGame] returns. *)
Variable unit : Z.
Variables facing_x facing_y : Z -> Z.
Variables move_speed turn_speed full_turn : Z.
Variable ConstructGame : State.

(** Modelled from the spec: the collision check of [GameMove]
    ([game.c] is missing): the cell a position lies in is solid. *)
Definition inside_solid (m : Map) (x y : Z) : bool :=
  solid m (x / unit) (y / unit).

(** The position of the pose is not inside a solid cell. *)
Definition position_free (s : State) : Prop :=
  inside_solid (map s) (pos_x (pose s)) (pos_y (pose s)) = false.

(** Modelled from the spec: the translation [GameMove] attempts
    ([game.c] is missing): along the facing vector, scaled by the elapsed
    time and the movement speed. *)
Definition target (p : Pose) (moveDirection elapsed : Z) : Z * Z :=
  (pos_x p + moveDirection * (elapsed * move_speed) * facing_x (angle p) / unit,
   pos_y p + moveDirection * (elapsed * move_speed) * facing_y (angle p) / unit).

(** Modelled from the spec: the rotation of [GameMove] ([game.c] is
    missing): by elapsed time times angular speed times direction. *)
Definition turn (a rotateDirection elapsed : Z) : Z :=
  (a + elapsed * turn_speed * rotateDirection) mod full_turn.

(** Modelled from the spec: [GameMove] ([game.c] is missing): the
    translation is checked against the map before it is committed and
    rejected when it would enter a solid cell; the rotation is applied
    in either case. *)
Definition Move (s : State) (moveDirection rotateDirection elapsed : Z)
  : State :=
  let p := pose s in
  let '(x, y) := target p moveDirection elapsed in
  let a := turn (angle p) rotateDirection elapsed in
  if inside_solid (map s) x y
  then mkState (mkPose (pos_x p) (pos_y p) a) (map s)
  else mkState (mkPose x y a) (map s).

(** The game states some sequence of [Move] calls leads to. *)
Inductive reachable : State -> Prop :=
| reach_construct : reachable ConstructGame
| reach_move s m r elapsed :
    reachable s -> reachable (Move s m r elapsed).

End Model.

End Game.

(** ** A small configuration

    A 2 x 2 screen, a 3 x 3 map whose only empty cell is the middle one,
    four facing directions, and a caster that reports the same hit for
    every column.  The closed examples below run the shell and the core
    models on it. *)
Module Small.

Definition room : Game.Map := [[1; 1; 1]; [1; 0; 1]; [1; 1; 1]].

Definition facing_x (a : Z) : Z :=
  if a =? 0 then 256 else if a =? 2 then -256 else 0.

Definition facing_y (a : Z) : Z :=
  if a =? 1 then 256 else if a =? 3 then -256 else 0.

Definition start : Game.State :=
  Game.mkState (Game.mkPose 384 384 0) room.

Definition Move : Game.State -> Z -> Z -> Z -> Game.State :=
  Game.Move 256 facing_x facing_y 1 1 4.

Definition cast (p : Game.Pose) (m : Game.Map) (x : nat) : Renderer.RayHit :=
  Renderer.mkHit 128 false 1.

Definition wall_color (kind : Z) (side : bool) : Z :=
  if side then 0xFF000080 else 0xFF0000FF.

Definition TraceFrame (g : Game.State) (buf : list Z) : option (list Z) :=
  Renderer.TraceFrame 2 2 Game.Pose Game.Map cast 64 0xFF303030 0xFF606060 wall_color
                      (Game.pose g) (Game.map g) buf.

Definition DrawFPS (buf : list Z) (value : Z) : option (list Z) :=
  Renderer.DrawFPS 2 2 Renderer.TopLeft 1 1
                   (fun v _ _ => 0xFF000000 + v) buf value.

Definition core : Core := {|
  SCREEN_WIDTH := 2;
  SCREEN_HEIGHT := 2;
  SCREEN_SCALE := 1;
  big_endian := false;
  G := Game.State;
  GameConstruct := start;
  GameMove := Move;
  RendererTraceFrame := fun _ g buf => default buf (TraceFrame g buf);
  RendererDrawFPS := fun buf v => default buf (DrawFPS buf v)
|}.

Definition env : Env := mkEnv 0 true 10000000 1000 [7; 7; 7; 7] [9; 9; 9; 9].

Definition key (type sym : Z) : SDL_Event := mkEvent type 0 sym.

(** One frame of 39062 ticks during which the up key went down. *)
Definition frame1 : Frame :=
  mkFrame 0 0 [key SDL_KEYDOWN SDLK_UP] 40062.

(** A frame during which the window was closed. *)
Definition frame_quit : Frame :=
  mkFrame 0 0 [mkEvent SDL_QUIT 0 0] 80000.

(** A frame during which two keys went down. *)
Definition frame_two_keys : Frame :=
  mkFrame 0 0 [key SDL_KEYDOWN SDLK_UP; key SDL_KEYDOWN SDLK_LEFT] 40062.

(** A frame in which the first [SDL_LockTexture] fails. *)
Definition frame_lock_fails : Frame :=
  mkFrame (-1) 0 [] 40062.

End Small.

(** ** A minute of play

    Sixty frames of 166667 ticks each, a sixtieth of a second on the
    10 MHz counter of the small configuration, without any input. *)
Module Session.

Definition frame (k : nat) : Frame :=
  mkFrame 0 0 [] (1000 + 166667 * Z.of_nat (S k)).

Definition frames : list Frame := map frame (seq 0 60).

(** A core that does nothing, for runs in which only the shell's own
    bookkeeping matters. *)
Definition core : Core := {|
  SCREEN_WIDTH := 2;
  SCREEN_HEIGHT := 2;
  SCREEN_SCALE := 1;
  big_endian := false;
  G := unit;
  GameConstruct := tt;
  GameMove := fun g _ _ _ => g;
  RendererTraceFrame := fun _ _ buf => buf;
  RendererDrawFPS := fun buf _ => buf
|}.

Definition env : Env := mkEnv 0 true 10000000 1000 [] [].

End Session.

(** * Properties of the shell *)

Section ShellProperties.

Context `{Core}.

Lemma all_before_split (p q : Call -> bool) (l1 l2 : list Call) :
  Forall (fun c => q c = false) l1 ->
  Forall (fun c => p c = false) l2 ->
  all_before p q (l1 ++ l2).
Proof.
  intros Hq Hp i j c d Hi Hj Hc Hd.
  destruct (decide (j < length l1)%nat) as [Hlt|Hge].
  - rewrite lookup_app_l in Hj by exact Hlt.
    rewrite Forall_lookup in Hq. specialize (Hq _ _ Hj). congruence.
  - destruct (decide (i < length l1)%nat) as [Hlt'|Hge']; [lia|].
    rewrite lookup_app_r in Hi by lia.
    rewrite Forall_lookup in Hp. specialize (Hp _ _ Hi). congruence.
Qed.

(** The calls of the time step, whatever its outcome. *)
Lemma update_calls freq nextCounter s :
  exists tail,
    (update freq nextCounter s).1 = call_SDL_GetPerformanceCounter :: tail /\
    (tail = [] \/ tail = [call_SDL_GetPerformanceFrequency] \/
     tail = [call_SDL_GetPerformanceFrequency;
             call_GameMove (moveDirection s) (rotateDirection s)
               (wrap64 (nextCounter - tickCounter s) / Z.shiftr freq 8)]).
Proof.
  unfold update, elapsedTimeUnits.
  destruct ((60 <=? _) && _); simpl; [eauto|].
  destruct (60 <=? _); destruct (_ =? 0); simpl; eauto.
Qed.

(** The three paths through the loop body. *)
Lemma loop_body_paths freq f s :
  (lock_fixed f <> 0 /\
   loop_body freq f s =
     (render_calls s ++
        [call_SDL_LockTexture fixedTexture; call_fprintf; call_exit 1],
      Exit 1)) \/
  (lock_fixed f = 0 /\ lock_float f <> 0 /\
   loop_body freq f s =
     (render_calls s ++
        (draw_buffer 0 fixedTexture fixedBuffer_id (rendered_fixed s) 0).1 ++
        [call_SDL_LockTexture floatTexture; call_fprintf; call_exit 1],
      Exit 1)) \/
  (lock_fixed f = 0 /\ lock_float f = 0 /\
   loop_body freq f s =
     (render_calls s ++
        (draw_buffer 0 fixedTexture fixedBuffer_id (rendered_fixed s) 0).1 ++
        (draw_buffer 0 floatTexture floatBuffer_id (rendered_float s)
                     (SCREEN_WIDTH + 1)).1 ++
        [call_SDL_RenderPresent; call_SDL_PollEvent] ++
        (update freq (counter f) (handle_events f (render s))).1,
      (update freq (counter f) (handle_events f (render s))).2)).
Proof.
  unfold loop_body, draw_buffer.
  destruct (Z.eqb_spec (lock_fixed f) 0) as [-> | Hfix]; simpl.
  - destruct (Z.eqb_spec (lock_float f) 0) as [-> | Hflo]; simpl.
    + right; right. split; [reflexivity|]. split; [reflexivity|].
      destruct (update _ _ _) eqn:E. reflexivity.
    + right; left. split; [reflexivity|]. split; [assumption|]. reflexivity.
  - left. split; [assumption|]. reflexivity.
Qed.

(** Case analysis of a goal about [loop_body freq f s] along its paths;
    the calls of the body become an explicit list. *)
Ltac along_paths freq f s :=
  let Hfix := fresh "Hfix" in
  let Hflo := fresh "Hflo" in
  let tail := fresh "tail" in
  let Hupd := fresh "Hupd" in
  destruct (loop_body_paths freq f s)
    as [(Hfix & ->) | [(Hfix & Hflo & ->) | (Hfix & Hflo & ->)]];
  [ | | destruct (update_calls freq (counter f) (handle_events f (render s)))
          as (tail & Hupd & [-> | [-> | ->]]);
        cbn [fst snd]; rewrite Hupd ];
  cbn [fst snd draw_buffer render_calls Z.eqb negb app].

(** What one iteration leaves in the two frame buffers. *)
Lemma loop_body_buffers freq f s s' :
  (loop_body freq f s).2 = Next s' ->
  floatBuffer s' = rendered_float s /\ fixedBuffer s' = rendered_fixed s.
Proof.
  destruct (loop_body_paths freq f s)
    as [(Hfix & ->) | [(Hfix & Hflo & ->) | (Hfix & Hflo & ->)]];
    cbn [snd]; try discriminate.
  unfold update.
  destruct (_ && _); [discriminate|].
  destruct (60 <=? _); destruct (elapsedTimeUnits _ _); try discriminate;
    intros [= <-]; cbn [floatBuffer fixedBuffer];
    unfold handle_events; destruct (SDL_PollEvent _) as [[e|] rest];
    try destruct (process_event _ _ _) as [q [m r]]; split; reflexivity.
Qed.

(** Every iteration starts with the two traces, the floating-point one
    first. *)
Lemma loop_body_traces freq f s :
  (loop_body freq f s).1 !! 0%nat
    = Some (call_RendererTraceFrame FloatPoint (game s) floatBuffer_id) /\
  (loop_body freq f s).1 !! 1%nat
    = Some (call_RendererTraceFrame FixedPoint (game s) fixedBuffer_id).
Proof. split; along_paths freq f s; reflexivity. Qed.

(** The trace of the loop is the traces of its iterations, one after the
    other. *)
Lemma main_loop_calls freq frames s :
  (main_loop freq frames s).1
  = flat_map (fun it => (loop_body freq it.2 it.1).1)
             (iterations freq frames s).
Proof.
  revert s. induction frames as [|f frames IH]; intros s; simpl.
  - destruct (isExiting s); reflexivity.
  - destruct (isExiting s); [reflexivity|].
    simpl. destruct (loop_body freq f s) as [calls [s'| code |]] eqn:E; simpl.
    + specialize (IH s').
      destruct (main_loop freq frames s') as [calls' r]; simpl in *.
      now rewrite IH.
    + now rewrite app_nil_r.
    + now rewrite app_nil_r.
Qed.

Lemma back_to_back_none (calls : list Call) :
  Forall (fun c => is_trace c = false) calls -> traces_back_to_back calls.
Proof.
  intros Hnone i g b Hi. rewrite Forall_lookup in Hnone.
  specialize (Hnone _ _ Hi). discriminate.
Qed.

Lemma back_to_back_app (l1 l2 : list Call) :
  traces_back_to_back l1 -> traces_back_to_back l2 ->
  traces_back_to_back (l1 ++ l2).
Proof.
  intros H1 H2 i g b Hi.
  destruct (decide (i < length l1)%nat) as [Hlt|Hge].
  - rewrite lookup_app_l in Hi by exact Hlt.
    destruct (H1 _ _ _ Hi) as (Hb & Hnext). split; [exact Hb|].
    apply lookup_app_l_Some. exact Hnext.
  - rewrite lookup_app_r in Hi by lia.
    destruct (H2 _ _ _ Hi) as (Hb & Hnext). split; [exact Hb|].
    rewrite lookup_app_r by lia.
    replace (S i - length l1)%nat with (S (i - length l1)) by lia.
    exact Hnext.
Qed.

Lemma back_to_back_flat_map {A} (g : A -> list Call) (l : list A) :
  (forall a, traces_back_to_back (g a)) -> traces_back_to_back (flat_map g l).
Proof.
  intros Hg. induction l as [|a l IH]; simpl.
  - apply back_to_back_none. constructor.
  - apply back_to_back_app; [apply Hg | exact IH].
Qed.

Lemma loop_body_back_to_back freq f s :
  traces_back_to_back (loop_body freq f s).1.
Proof.
  along_paths freq f s; intros i g b Hi;
    (destruct i as [|i];
     [injection Hi as <- <-; split; reflexivity|]);
    exfalso;
    do 17 (destruct i as [|i]; [discriminate|]); discriminate.
Qed.

Lemma main_back_to_back env frames :
  traces_back_to_back (main env frames).1.
Proof.
  unfold main.
  destruct (init_result env <? 0);
    [apply back_to_back_none; repeat constructor|].
  destruct (window_created env); simpl negb; cbv iota;
    [|apply back_to_back_none; repeat constructor].
  assert (Hloop : traces_back_to_back
                    (main_loop (frequency env) frames (initial env)).1).
  { rewrite main_loop_calls. apply back_to_back_flat_map. intros [s0 f0].
    apply loop_body_back_to_back. }
  destruct (main_loop _ _ _) as [calls [s0| code | | s0]]; cbn [fst] in *;
    (apply back_to_back_app; [apply back_to_back_none; repeat constructor|]);
    try exact Hloop.
  apply back_to_back_app; [exact Hloop|].
  apply back_to_back_none; repeat constructor.
Qed.

(** Every iteration starts with the four calls of the render phase: the
    two traces, then the two frame-rate overlays. *)
Lemma loop_body_render_first freq f s :
  take 4 (loop_body freq f s).1 = render_calls s.
Proof. along_paths freq f s; reflexivity. Qed.

(** C1. In every iteration of the main loop the two [RendererTraceFrame]
    calls are the first two calls, back to back, on the same game state
    and into different buffers; they are the only traces of the
    iteration; every trace comes before every call that presents a frame
    buffer ([memcpy] into a texture, [SDL_RenderCopy],
    [SDL_RenderPresent]) and before [GameMove]; the buffer each trace
    fills is computed from the game state the iteration started with and
    from that buffer alone; and in the trace of a whole run no call at
    all, so no [GameMove] either, lies between the floating-point trace
    and the fixed-point trace that follows it. *)
Theorem traces_complete_before_presentation freq f s env frames :
  (loop_body freq f s).1 !! 0%nat
    = Some (call_RendererTraceFrame FloatPoint (game s) floatBuffer_id) /\
  (loop_body freq f s).1 !! 1%nat
    = Some (call_RendererTraceFrame FixedPoint (game s) fixedBuffer_id) /\
  count is_trace (loop_body freq f s).1 = 2%nat /\
  all_before is_trace is_present (loop_body freq f s).1 /\
  all_before is_trace is_move (loop_body freq f s).1 /\
  floatBuffer_id <> fixedBuffer_id /\
  (forall s', (loop_body freq f s).2 = Next s' ->
     floatBuffer s'
       = RendererDrawFPS
           (RendererTraceFrame FloatPoint (game s) (floatBuffer s))
           (displayFPS s) /\
     fixedBuffer s'
       = RendererDrawFPS
           (RendererTraceFrame FixedPoint (game s) (fixedBuffer s))
           (displayFPS s)) /\
  traces_back_to_back (main env frames).1.
Proof.
  split; [|split; [|split; [|split; [|split; [|split; [|split]]]]]];
    [| | | | | | |apply main_back_to_back].
  - apply loop_body_traces.
  - apply loop_body_traces.
  - along_paths freq f s; reflexivity.
  - along_paths freq f s;
      match goal with
      | |- all_before _ _ (?a :: ?b :: ?rest) =>
          apply (all_before_split _ _ [a; b] rest)
      end; repeat constructor.
  - along_paths freq f s;
      match goal with
      | |- all_before _ _ (?a :: ?b :: ?rest) =>
          apply (all_before_split _ _ [a; b] rest)
      end; repeat constructor.
  - discriminate.
  - apply loop_body_buffers.
Qed.

(** The trace of a run that got as far as the loop. *)
Lemma main_calls env frames :
  0 <= init_result env -> window_created env = true ->
  exists finish,
    (main env frames).1
    = setup_calls ++ (main_loop (frequency env) frames (initial env)).1
        ++ finish /\
    (finish = [] \/ finish = cleanup_calls ++ [call_SDL_Quit]).
Proof.
  intros Hinit Hwin. unfold main.
  destruct (Z.ltb_spec (init_result env) 0); [lia|].
  rewrite Hwin. simpl negb. cbv iota.
  destruct (main_loop _ _ _) as [calls [s| code | | s]]; cbn [fst].
  - exists (cleanup_calls ++ [call_SDL_Quit]). split; [reflexivity|now right].
  - exists []. rewrite app_nil_r. split; [reflexivity|now left].
  - exists []. rewrite app_nil_r. split; [reflexivity|now left].
  - exists []. rewrite app_nil_r. split; [reflexivity|now left].
Qed.

(** *** Order of the phases of a frame *)

Lemma preceded_none (p q : Call -> bool) (calls : list Call) :
  Forall (fun c => p c = false) calls -> preceded p q calls.
Proof.
  intros Hp i c Hi Hc. rewrite Forall_lookup in Hp.
  specialize (Hp _ _ Hi). congruence.
Qed.

Lemma preceded_app (p q : Call -> bool) (l1 l2 : list Call) :
  preceded p q l1 -> preceded p q l2 -> preceded p q (l1 ++ l2).
Proof.
  intros H1 H2 i c Hi Hc.
  destruct (decide (i < length l1)%nat) as [Hlt|Hge].
  - rewrite lookup_app_l in Hi by exact Hlt.
    destruct (H1 _ _ Hi Hc) as (j & d & Hj & Hd & Hq).
    exists j, d. split; [exact Hj|]. split; [|exact Hq].
    rewrite lookup_app_l by lia. exact Hd.
  - rewrite lookup_app_r in Hi by lia.
    destruct (H2 _ _ Hi Hc) as (j & d & Hj & Hd & Hq).
    exists (length l1 + j)%nat, d. split; [lia|]. split; [|exact Hq].
    rewrite lookup_app_r by lia.
    replace (length l1 + j - length l1)%nat with j by lia. exact Hd.
Qed.

Lemma preceded_flat_map {A} (p q : Call -> bool) (g : A -> list Call)
    (l : list A) :
  (forall a, preceded p q (g a)) -> preceded p q (flat_map g l).
Proof.
  intros Hg. induction l as [|a l IH]; simpl.
  - apply preceded_none. constructor.
  - apply preceded_app; [apply Hg | exact IH].
Qed.

(** Within an iteration, a poll or a [GameMove] has an
    [SDL_RenderPresent] before it. *)
Lemma loop_body_present_first freq f s :
  preceded is_input_or_update is_render_present (loop_body freq f s).1.
Proof.
  along_paths freq f s.
  1-2: apply preceded_none; repeat constructor.
  all: intros i c Hi Hc;
    exists 12%nat, call_SDL_RenderPresent;
    (split; [|split; reflexivity]);
    do 13 (destruct i as [|i]; [simpl in Hi; injection Hi as <-; discriminate|]);
    lia.
Qed.

Lemma all_before_at (n : nat) (p q : Call -> bool) (calls : list Call) :
  Forall (fun c => q c = false) (take n calls) ->
  Forall (fun c => p c = false) (drop n calls) ->
  all_before p q calls.
Proof.
  intros Hq Hp. rewrite <- (take_drop n calls).
  now apply all_before_split.
Qed.

(** *** The fields each phase touches *)

Lemma handle_events_fields f s :
  game (handle_events f s) = game s /\
  floatBuffer (handle_events f s) = floatBuffer s /\
  fixedBuffer (handle_events f s) = fixedBuffer s /\
  tickCounter (handle_events f s) = tickCounter s /\
  fpsCounter (handle_events f s) = fpsCounter s /\
  fpsAccumulator (handle_events f s) = fpsAccumulator s /\
  displayFPS (handle_events f s) = displayFPS s.
Proof.
  unfold handle_events. destruct (SDL_PollEvent _) as [[e|] rest].
  - destruct (process_event _ _ _) as [q [m r]]. repeat split.
  - repeat split.
Qed.

Lemma handle_events_input f s :
  event_queue (handle_events f s) = drop 1 (event_queue s ++ arrivals f) /\
  (isExiting (handle_events f s),
   (moveDirection (handle_events f s), rotateDirection (handle_events f s)))
  = match event_queue s ++ arrivals f with
    | [] => (isExiting s, (moveDirection s, rotateDirection s))
    | event :: _ =>
        process_event event (moveDirection s) (rotateDirection s)
    end.
Proof.
  unfold handle_events, SDL_PollEvent.
  destruct (event_queue s ++ arrivals f) as [|e rest].
  - split; reflexivity.
  - destruct (process_event _ _ _) as [q [m r]]. split; reflexivity.
Qed.

Lemma update_next freq nextCounter s s' :
  (update freq nextCounter s).2 = Next s' ->
  moveDirection s' = moveDirection s /\
  rotateDirection s' = rotateDirection s /\
  isExiting s' = isExiting s /\
  event_queue s' = event_queue s /\
  tickCounter s' = nextCounter /\
  (wrap32 (fpsCounter s + 1) < 60 ->
   fpsCounter s' = wrap32 (fpsCounter s + 1) /\ displayFPS s' = displayFPS s).
Proof.
  unfold update.
  destruct (_ && _); [discriminate|].
  destruct (Z.leb_spec 60 (wrap32 (fpsCounter s + 1)));
    destruct (elapsedTimeUnits _ _); try discriminate;
    intros [= <-]; cbn; repeat split; lia.
Qed.

(** The state an iteration hands to the next one. *)
Lemma loop_body_next freq f s s' :
  (loop_body freq f s).2 = Next s' ->
  (update freq (counter f) (handle_events f (render s))).2 = Next s'.
Proof.
  destruct (loop_body_paths freq f s)
    as [(Hfix & ->) | [(Hfix & Hflo & ->) | (Hfix & Hflo & ->)]];
    cbn [snd]; try discriminate. auto.
Qed.

(** *** One event per iteration *)

Lemma count_app (p : Call -> bool) (l1 l2 : list Call) :
  count p (l1 ++ l2) = (count p l1 + count p l2)%nat.
Proof. unfold count. now rewrite filter_app, length_app. Qed.

Lemma count_none (p : Call -> bool) (calls : list Call) :
  Forall (fun c => p c = false) calls -> count p calls = 0%nat.
Proof.
  unfold count. induction 1 as [|c calls Hc _ IH]; [reflexivity|].
  rewrite filter_cons. destruct (decide (p c = true)); [congruence|exact IH].
Qed.

(** C10. An iteration of the main loop calls [SDL_PollEvent] at most
    once.  When the iteration runs to its end, the event queue has lost
    its first event and nothing else (events that arrived during the
    frame are queued behind the pending ones and stay there), and
    [isExiting], [moveDirection] and [rotateDirection] are what
    [process_event] makes of that one event, or unchanged when the queue
    was empty. *)
Theorem one_event_per_iteration freq f s :
  (count is_poll (loop_body freq f s).1 <= 1)%nat /\
  (forall s', (loop_body freq f s).2 = Next s' ->
     count is_poll (loop_body freq f s).1 = 1%nat /\
     event_queue s' = drop 1 (event_queue s ++ arrivals f) /\
     (isExiting s', (moveDirection s', rotateDirection s'))
     = match event_queue s ++ arrivals f with
       | [] => (isExiting s, (moveDirection s, rotateDirection s))
       | event :: _ =>
           process_event event (moveDirection s) (rotateDirection s)
       end).
Proof.
  split.
  - along_paths freq f s; unfold count; simpl; lia.
  - intros s' Hnext.
    pose proof (loop_body_next _ _ _ _ Hnext) as Hupd.
    destruct (update_next _ _ _ _ Hupd) as (Hm & Hr & Hq & He & _).
    destruct (handle_events_input f (render s)) as (Hqueue & Hin).
    split; [|split].
    + revert Hnext. along_paths freq f s; try discriminate; reflexivity.
    + rewrite He, Hqueue. reflexivity.
    + rewrite Hm, Hr, Hq, Hin. reflexivity.
Qed.

(** *** The directions handed to [GameMove] *)

Lemma process_event_direction event m r :
  direction m -> direction r ->
  direction (process_event event m r).2.1 /\
  direction (process_event event m r).2.2.
Proof.
  intros Hm Hr. unfold process_event.
  repeat match goal with
         | |- context [if ?b then _ else _] => destruct b
         end; cbn [fst snd]; unfold direction; auto.
Qed.

Lemma handle_events_direction f s :
  direction (moveDirection s) -> direction (rotateDirection s) ->
  direction (moveDirection (handle_events f s)) /\
  direction (rotateDirection (handle_events f s)).
Proof.
  intros Hm Hr.
  destruct (handle_events_input f s) as (_ & Hin).
  destruct (event_queue s ++ arrivals f) as [|e rest].
  - injection Hin as _ -> ->. auto.
  - destruct (process_event_direction e _ _ Hm Hr) as (Hm' & Hr').
    destruct (process_event e _ _) as [q [m r]].
    injection Hin as _ -> ->. auto.
Qed.

Lemma loop_body_directions freq f s :
  direction (moveDirection s) -> direction (rotateDirection s) ->
  Forall directions_ok (loop_body freq f s).1 /\
  (forall s', (loop_body freq f s).2 = Next s' ->
     direction (moveDirection s') /\ direction (rotateDirection s')).
Proof.
  intros Hm Hr.
  destruct (handle_events_direction f (render s) Hm Hr) as (Hm' & Hr').
  split.
  - along_paths freq f s;
      repeat first [assumption | apply Forall_nil_2 | apply Forall_cons_2
                   | exact I | split].
  - intros s' Hnext. apply loop_body_next in Hnext.
    destruct (update_next _ _ _ _ Hnext) as (-> & -> & _). auto.
Qed.

Lemma main_loop_directions freq frames s :
  direction (moveDirection s) -> direction (rotateDirection s) ->
  Forall directions_ok (main_loop freq frames s).1.
Proof.
  revert s. induction frames as [|f frames IH]; intros s Hm Hr; simpl.
  - destruct (isExiting s); constructor.
  - destruct (isExiting s); [constructor|].
    destruct (loop_body_directions freq f s Hm Hr) as (Hcalls & Hnext).
    destruct (loop_body freq f s) as [calls [s'| code |]]; cbn [fst snd] in *;
      try exact Hcalls.
    destruct (Hnext s' eq_refl) as (Hm' & Hr').
    specialize (IH s' Hm' Hr').
    destruct (main_loop freq frames s') as [calls' r]; cbn [fst] in *.
    apply Forall_app. auto.
Qed.

(** C7. [moveDirection] and [rotateDirection] start at 0;
    [process_event] leaves each of them alone or assigns it -1, 0 or 1
    (up and down set [moveDirection] to 1 and -1 when pressed and to 0
    when released, left and right set [rotateDirection] to -1 and 1 when
    pressed and to 0 when released); and in every run of [main] every
    call to [GameMove] passes directions in {-1, 0, 1}. *)
Theorem move_directions_in_domain env frames :
  moveDirection (initial env) = 0 /\
  rotateDirection (initial env) = 0 /\
  (forall m r up,
     process_event (mkEvent SDL_KEYDOWN 0 SDLK_UP) m r = (false, (1, r)) /\
     process_event (mkEvent SDL_KEYDOWN 0 SDLK_DOWN) m r = (false, (-1, r)) /\
     process_event (mkEvent SDL_KEYDOWN 0 SDLK_LEFT) m r = (false, (m, -1)) /\
     process_event (mkEvent SDL_KEYDOWN 0 SDLK_RIGHT) m r = (false, (m, 1)) /\
     process_event (mkEvent SDL_KEYUP 0 SDLK_UP) m r = (false, (0, r)) /\
     process_event (mkEvent SDL_KEYUP 0 SDLK_DOWN) m r = (false, (0, r)) /\
     process_event (mkEvent SDL_KEYUP 0 SDLK_LEFT) m r = (false, (m, 0)) /\
     process_event (mkEvent SDL_KEYUP 0 SDLK_RIGHT) m r = (false, (m, 0)) /\
     ((process_event up m r).2.1 = m \/ direction (process_event up m r).2.1) /\
     ((process_event up m r).2.2 = r \/ direction (process_event up m r).2.2)) /\
  Forall directions_ok (main env frames).1.
Proof.
  split; [reflexivity|]. split; [reflexivity|]. split.
  - intros m r up. repeat (split; [reflexivity|]).
    unfold process_event.
    repeat match goal with
           | |- context [if ?b then _ else _] => destruct b
           end; cbn [fst snd]; unfold direction; auto.
  - unfold main.
    destruct (init_result env <? 0); [repeat constructor|].
    destruct (window_created env); simpl negb; cbv iota;
      [|repeat constructor].
    assert (Hloop : Forall directions_ok
                      (main_loop (frequency env) frames (initial env)).1).
    { apply main_loop_directions; right; left; reflexivity. }
    destruct (main_loop _ _ _) as [calls [s0| code | | s0]]; cbn [fst] in *;
      repeat (apply Forall_app; split); try exact Hloop; repeat constructor.
Qed.

(** *** Construction and teardown of the ray casters *)

Lemma loop_body_no_lifecycle freq f s b :
  Forall (fun c => is_construct b c = false) (loop_body freq f s).1 /\
  Forall (fun c => is_destruct b c = false) (loop_body freq f s).1.
Proof.
  split; along_paths freq f s; repeat constructor.
Qed.

Lemma main_loop_no_lifecycle freq frames s b :
  Forall (fun c => is_construct b c = false) (main_loop freq frames s).1 /\
  Forall (fun c => is_destruct b c = false) (main_loop freq frames s).1.
Proof.
  rewrite main_loop_calls.
  induction (iterations freq frames s) as [|[s0 f0] its [IHc IHd]]; simpl.
  - split; constructor.
  - destruct (loop_body_no_lifecycle freq f0 s0 b).
    split; apply Forall_app; auto.
Qed.

(** C9, as the code has it.  In a run that gets past [SDL_Init] and
    [SDL_CreateWindow], each ray caster is constructed exactly once, by
    the calls that come before the loop, and the loop itself neither
    constructs nor destructs.  When the loop ends because [isExiting]
    became true, the trace is the setup calls, the loop, and the cleanup
    calls, and each caster's [Destruct] is called exactly once, in the
    cleanup.  On every other way out of the loop (the [exit(1)] of
    [draw_buffer], or the loop still running) the trace is the setup
    calls and the loop only, and [Destruct] is not called at all. *)
Theorem caster_lifecycle env frames b :
  0 <= init_result env -> window_created env = true ->
  count (is_construct b) setup_calls = 1%nat /\
  count (is_construct b) (main env frames).1 = 1%nat /\
  count (is_construct b)
        (main_loop (frequency env) frames (initial env)).1 = 0%nat /\
  count (is_destruct b)
        (main_loop (frequency env) frames (initial env)).1 = 0%nat /\
  ((exists s, (main_loop (frequency env) frames (initial env)).2
              = loop_ended s) ->
   main env frames
   = (setup_calls ++ (main_loop (frequency env) frames (initial env)).1
        ++ cleanup_calls ++ [call_SDL_Quit], Returned 0) /\
   count (is_destruct b) cleanup_calls = 1%nat /\
   count (is_destruct b) (main env frames).1 = 1%nat) /\
  ((forall s, (main_loop (frequency env) frames (initial env)).2
              <> loop_ended s) ->
   (main env frames).1
   = setup_calls ++ (main_loop (frequency env) frames (initial env)).1 /\
   (main env frames).2 <> Returned 0 /\
   count (is_destruct b) (main env frames).1 = 0%nat).
Proof.
  intros Hinit Hwin.
  destruct (main_loop_no_lifecycle (frequency env) frames (initial env) b)
    as (Hc & Hd).
  apply count_none in Hc. apply count_none in Hd.
  assert (Hsetup : count (is_construct b) setup_calls = 1%nat)
    by (destruct b; reflexivity).
  assert (Hsetupd : count (is_destruct b) setup_calls = 0%nat)
    by (destruct b; reflexivity).
  assert (Hclean : count (is_destruct b) (cleanup_calls ++ [call_SDL_Quit]) = 1%nat)
    by (destruct b; reflexivity).
  assert (Hcleanc : count (is_construct b) (cleanup_calls ++ [call_SDL_Quit]) = 0%nat)
    by (destruct b; reflexivity).
  rewrite count_app in Hclean, Hcleanc.
  unfold main.
  destruct (Z.ltb_spec (init_result env) 0); [lia|].
  rewrite Hwin. simpl negb. cbv iota.
  destruct (main_loop _ _ _) as [calls [s0| code | | s0]]; cbn [fst snd] in *;
    (split; [exact Hsetup|]);
    (split; [rewrite !count_app; lia|]);
    (split; [exact Hc|]); (split; [exact Hd|]); split.
  all: try (intros [s1 Hs1]; discriminate).
  all: try (intros Hne; exfalso; now apply (Hne s0)).
  - intros _. split; [reflexivity|]. split; [destruct b; reflexivity|].
    rewrite !count_app in *. lia.
  - intros _. split; [reflexivity|]. split; [discriminate|].
    rewrite !count_app in *. lia.
  - intros _. split; [reflexivity|]. split; [discriminate|].
    rewrite !count_app in *. lia.
  - intros _. split; [reflexivity|]. split; [discriminate|].
    rewrite !count_app in *. lia.
Qed.

(** *** The frame rate shown during the first sixty frames *)

Lemma wrap32_small z : 0 <= z < 2 ^ 32 -> wrap32 z = z.
Proof. intros Hz. unfold wrap32. now apply Z.mod_small. Qed.

Lemma first_frames_invariant freq frames s k it (n : Z) :
  iterations freq frames s !! k = Some it ->
  displayFPS s = 0 -> fpsCounter s = n -> 0 <= n -> n + Z.of_nat k < 60 ->
  displayFPS it.1 = 0 /\ fpsCounter it.1 = n + Z.of_nat k.
Proof.
  revert s k n. induction frames as [|f frames IH]; intros s k n; simpl.
  - destruct (isExiting s); discriminate.
  - destruct (isExiting s); [discriminate|].
    destruct k as [|k]; simpl.
    + intros [= <-] Hfps Hcnt _ _. cbn [fst]. split; [exact Hfps|lia].
    + intros Hit Hfps Hcnt Hn Hk.
      destruct (loop_body freq f s) as [calls [s'| code |]] eqn:E;
        try discriminate.
      assert (Hnext : (loop_body freq f s).2 = Next s') by now rewrite E.
      apply loop_body_next in Hnext.
      destruct (update_next _ _ _ _ Hnext) as (_ & _ & _ & _ & _ & Hsmall).
      destruct (handle_events_fields f (render s))
        as (_ & _ & _ & _ & Hc & _ & Hd).
      rewrite Hc, Hd in Hsmall. cbn [render fpsCounter displayFPS] in Hsmall.
      rewrite Hcnt, wrap32_small in Hsmall by lia.
      destruct Hsmall as (Hc' & Hd'); [lia|].
      destruct (IH s' k (n + 1) Hit) as (Hres1 & Hres2); lia.
Qed.

End ShellProperties.

(** * Properties of the renderer model *)

Section Stores.

Import Renderer.

Lemma store_all_length ws buf out :
  store_all ws buf = Some out -> length out = length buf.
Proof.
  revert buf. induction ws as [|[j v] ws IH]; intros buf; simpl.
  - now intros [= ->].
  - unfold store. destruct (decide (j < length buf)%nat); [|discriminate].
    intros Hout. rewrite (IH _ Hout). apply length_insert.
Qed.

Lemma store_all_succeeds ws buf :
  Forall (fun w => (w.1 < length buf)%nat) ws ->
  exists out, store_all ws buf = Some out.
Proof.
  revert buf. induction ws as [|[j v] ws IH]; intros buf Hws; simpl.
  - eauto.
  - inversion Hws as [|w ws' Hj Hrest]; subst. cbn [fst] in Hj.
    unfold store. destruct (decide (j < length buf)%nat); [|lia].
    apply IH. rewrite length_insert. exact Hrest.
Qed.

(** After a sequence of stores an element holds the last value stored to
    it, or what it held before when nothing was stored to it. *)
Lemma store_all_lookup ws buf out i :
  store_all ws buf = Some out ->
  out !! i = match last_write ws i with
             | Some v => Some v
             | None => buf !! i
             end.
Proof.
  revert buf. induction ws as [|[j v] ws IH]; intros buf; simpl.
  - now intros [= ->].
  - unfold store. destruct (decide (j < length buf)%nat) as [Hj|]; [|discriminate].
    intros Hout. rewrite (IH _ Hout).
    destruct (last_write ws i); [reflexivity|].
    destruct (decide (j = i)) as [->|Hne].
    + now apply list_lookup_insert_eq.
    + now apply list_lookup_insert_ne.
Qed.

Lemma last_write_In ws i v : last_write ws i = Some v -> In (i, v) ws.
Proof.
  induction ws as [|[j w] ws IH]; simpl; [discriminate|].
  destruct (last_write ws i) as [v'|].
  - intros [= ->]. right. now apply IH.
  - destruct (decide (j = i)) as [->|]; [|discriminate].
    intros [= ->]. now left.
Qed.

Lemma In_last_write ws i v :
  In (i, v) ws -> exists v', last_write ws i = Some v'.
Proof.
  induction ws as [|[j w] ws IH]; simpl; [tauto|].
  intros [[= -> ->]|Hin].
  - destruct (last_write ws i); [eauto|].
    destruct (decide (i = i)); [eauto|congruence].
  - destruct (IH Hin) as [v' ->]. eauto.
Qed.

Lemma last_write_None ws i :
  (forall v, ~ In (i, v) ws) -> last_write ws i = None.
Proof.
  intros Hno. destruct (last_write ws i) as [v|] eqn:E; [|reflexivity].
  exfalso. exact (Hno v (last_write_In _ _ _ E)).
Qed.

End Stores.

(** Row-major indexing: column and row of a pixel from its index. *)
Lemma pixel_index (width x y : nat) :
  (x < width)%nat ->
  ((y * width + x) mod width = x /\ (y * width + x) / width = y)%nat.
Proof.
  intros Hx. split.
  - symmetry. apply (Nat.mod_unique _ _ y); lia.
  - symmetry. apply (Nat.div_unique _ _ _ x); lia.
Qed.

Section TraceFrameProperties.

Variables width height : nat.
Variables Pose Map : Type.
Variable cast : Pose -> Map -> nat -> Renderer.RayHit.
Variable projection : Z.
Variables ceiling_color floor_color : Z.
Variable wall_color : Z -> bool -> Z.

Abbreviation TraceFrame :=
  (Renderer.TraceFrame width height Pose Map cast projection
                       ceiling_color floor_color wall_color).
Abbreviation frame_writes :=
  (Renderer.frame_writes width height Pose Map cast projection
                         ceiling_color floor_color wall_color).
Abbreviation color_at :=
  (Renderer.color_at width height Pose Map cast projection
                     ceiling_color floor_color wall_color).
Abbreviation pixel :=
  (Renderer.pixel height projection ceiling_color floor_color wall_color).

(** The stores of a frame: which elements, and which values. *)
Lemma frame_writes_In pose map i v :
  In (i, v) (frame_writes pose map) ->
  (i < width * height)%nat /\ v = color_at pose map i.
Proof.
  unfold Renderer.frame_writes, Renderer.column_writes.
  rewrite in_flat_map. intros (x & Hx & Hin).
  apply in_map_iff in Hin. destruct Hin as (y & [= <- <-] & Hy).
  apply in_seq in Hx. apply in_seq in Hy.
  destruct (pixel_index width x y) as (Hmod & Hdiv); [lia|].
  split; [nia|]. unfold Renderer.color_at. now rewrite Hmod, Hdiv.
Qed.

Lemma In_frame_writes pose map i :
  (i < width * height)%nat ->
  In (i, color_at pose map i) (frame_writes pose map).
Proof.
  intros Hi.
  assert (Hw : (0 < width)%nat) by nia.
  unfold Renderer.frame_writes, Renderer.column_writes, Renderer.color_at.
  rewrite in_flat_map. exists (i mod width)%nat. split.
  - apply in_seq. pose proof (Nat.mod_upper_bound i width). lia.
  - apply in_map_iff. exists (i / width)%nat. split.
    + f_equal. pose proof (Nat.div_mod_eq i width). lia.
    + apply in_seq. split; [lia|]. simpl.
      apply Nat.Div0.div_lt_upper_bound. lia.
Qed.

Lemma frame_last_write pose map i :
  (i < width * height)%nat ->
  Renderer.last_write (frame_writes pose map) i = Some (color_at pose map i).
Proof.
  intros Hi.
  destruct (In_last_write _ _ _ (In_frame_writes pose map i Hi)) as [v Hv].
  rewrite Hv. f_equal.
  now destruct (frame_writes_In _ _ _ _ (last_write_In _ _ _ Hv)).
Qed.

Lemma trace_frame_pixels pose map buf :
  length buf = (width * height)%nat ->
  exists out,
    TraceFrame pose map buf = Some out /\
    length out = (width * height)%nat /\
    forall i, (i < width * height)%nat -> out !! i = Some (color_at pose map i).
Proof.
  intros Hlen.
  destruct (store_all_succeeds (frame_writes pose map) buf) as [out Hout].
  { apply List.Forall_forall. intros [i v] Hin. cbn [fst].
    apply frame_writes_In in Hin. lia. }
  exists out. split; [exact Hout|]. split.
  - rewrite (store_all_length _ _ _ Hout). exact Hlen.
  - intros i Hi. rewrite (store_all_lookup _ _ _ i Hout).
    now rewrite frame_last_write.
Qed.

(** C2. A call of [RendererTraceFrame] on a buffer of the screen's size
    succeeds and stores to every pixel: each element of the buffer is
    the target of one of the call's stores and ends up holding the colour
    the frame gives that pixel, so the result is the same whatever the
    buffer held before the call.  The shell hands each caster the buffer
    the previous frame left behind, uncleared, and the first time around
    the uninitialised array. *)
Theorem trace_frame_overwrites_every_pixel pose map buf :
  length buf = (width * height)%nat ->
  (exists out,
     TraceFrame pose map buf = Some out /\
     length out = (width * height)%nat /\
     (forall i, (i < width * height)%nat ->
        In (i, color_at pose map i) (frame_writes pose map) /\
        out !! i = Some (color_at pose map i)) /\
     (forall stale, length stale = (width * height)%nat ->
        TraceFrame pose map stale = Some out)) /\
  (forall (shell : Core) env freq f s s',
     floatBuffer (initial env) = floatBuffer0 env /\
     fixedBuffer (initial env) = fixedBuffer0 env /\
     ((loop_body freq f s).2 = Next s' ->
      floatBuffer s' = rendered_float s /\ fixedBuffer s' = rendered_fixed s) /\
     (loop_body freq f s).1 !! 0%nat
       = Some (call_RendererTraceFrame FloatPoint (game s) floatBuffer_id) /\
     rendered_float s
       = RendererDrawFPS
           (RendererTraceFrame FloatPoint (game s) (floatBuffer s))
           (displayFPS s)).
Proof.
  intros Hlen. split.
  - destruct (trace_frame_pixels pose map buf Hlen) as (out & Hout & Hl & Hpix).
    exists out. split; [exact Hout|]. split; [exact Hl|]. split.
    + intros i Hi. split; [now apply In_frame_writes|now apply Hpix].
    + intros stale Hstale.
      destruct (trace_frame_pixels pose map stale Hstale)
        as (out' & Hout' & Hl' & Hpix').
      rewrite Hout'. f_equal. apply list_eq. intros i.
      destruct (decide (i < width * height)%nat) as [Hi|Hi].
      * now rewrite Hpix, Hpix'.
      * rewrite !lookup_ge_None_2 by lia. reflexivity.
  - intros shell env freq f s s'.
    split; [reflexivity|]. split; [reflexivity|].
    split; [apply loop_body_buffers|].
    split; [|reflexivity].
    apply (loop_body_traces freq f s).
Qed.

End TraceFrameProperties.

Section DrawFPSProperties.

Variables width height : nat.
Variable fps_corner : Renderer.Corner.
Variables fps_width fps_height : nat.
Variable fps_pixel : Z -> nat -> nat -> Z.

Abbreviation DrawFPS :=
  (Renderer.DrawFPS width height fps_corner fps_width fps_height fps_pixel).
Abbreviation fps_writes :=
  (Renderer.fps_writes width height fps_corner fps_width fps_height fps_pixel).
Abbreviation fps_origin :=
  (Renderer.fps_origin width height fps_corner fps_width fps_height).
Abbreviation in_fps_region :=
  (Renderer.in_fps_region width height fps_corner fps_width fps_height).

Hypothesis fps_fits_width : (fps_width <= width)%nat.
Hypothesis fps_fits_height : (fps_height <= height)%nat.

Lemma fps_origin_fits :
  (fps_origin.1 + fps_width <= width)%nat /\
  (fps_origin.2 + fps_height <= height)%nat.
Proof. unfold Renderer.fps_origin. destruct fps_corner; simpl; lia. Qed.

(** The stores of the readout stay inside the buffer and inside the
    reserved region. *)
Lemma fps_writes_In value i v :
  In (i, v) (fps_writes value) ->
  (i < width * height)%nat /\ in_fps_region i.
Proof.
  unfold Renderer.fps_writes.
  rewrite in_flat_map. intros (ry & Hry & Hin).
  apply in_map_iff in Hin. destruct Hin as (rx & [= <- <-] & Hrx).
  apply in_seq in Hry. apply in_seq in Hrx.
  destruct fps_origin_fits as (Hw & Hh).
  destruct (pixel_index width (fps_origin.1 + rx) (fps_origin.2 + ry))
    as (Hmod & Hdiv); [lia|].
  split; [nia|]. unfold Renderer.in_fps_region. rewrite Hmod, Hdiv. lia.
Qed.

Lemma draw_fps_confined buf value :
  length buf = (width * height)%nat ->
  exists out,
    DrawFPS buf value = Some out /\
    length out = length buf /\
    forall i, ~ in_fps_region i -> out !! i = buf !! i.
Proof.
  intros Hlen.
  destruct (store_all_succeeds (fps_writes value) buf) as [out Hout].
  { apply List.Forall_forall. intros [i v] Hin. cbn [fst].
    apply fps_writes_In in Hin. lia. }
  exists out. split; [exact Hout|]. split.
  - exact (store_all_length _ _ _ Hout).
  - intros i Hi. rewrite (store_all_lookup _ _ _ i Hout).
    rewrite last_write_None; [reflexivity|].
    intros v Hin. apply fps_writes_In in Hin. tauto.
Qed.

(** C8. On a buffer of the screen's size [RendererDrawFPS] succeeds for
    every value, 0 included; it keeps the buffer's size and changes no
    pixel outside the reserved corner region, which lies within the
    screen.  In the shell every iteration begins with the two traces
    followed by the two [RendererDrawFPS] calls, each on a buffer its
    trace has just filled, and [displayFPS] is 0 throughout the first
    sixty iterations of the loop, so that both [RendererDrawFPS] calls
    of each of them are passed 0. *)
Theorem draw_fps_confined_and_zero_at_start buf :
  length buf = (width * height)%nat ->
  (forall value,
     exists out,
       DrawFPS buf value = Some out /\
       length out = length buf /\
       forall i, ~ in_fps_region i -> out !! i = buf !! i) /\
  (exists out, DrawFPS buf 0 = Some out) /\
  (forall i, in_fps_region i -> (0 < width)%nat ->
     (i mod width < width)%nat /\ (i / width < height)%nat) /\
  (forall (shell : Core) freq f s,
     take 4 (loop_body freq f s).1
     = [call_RendererTraceFrame FloatPoint (game s) floatBuffer_id;
        call_RendererTraceFrame FixedPoint (game s) fixedBuffer_id;
        call_RendererDrawFPS fixedBuffer_id (displayFPS s);
        call_RendererDrawFPS floatBuffer_id (displayFPS s)] /\
     rendered_fixed s
     = RendererDrawFPS
         (RendererTraceFrame FixedPoint (game s) (fixedBuffer s))
         (displayFPS s) /\
     rendered_float s
     = RendererDrawFPS
         (RendererTraceFrame FloatPoint (game s) (floatBuffer s))
         (displayFPS s)) /\
  (forall (shell : Core) env frames k s f,
     (k < 60)%nat ->
     iterations (frequency env) frames (initial env) !! k = Some (s, f) ->
     displayFPS s = 0 /\
     (loop_body (frequency env) f s).1 !! 2%nat
       = Some (call_RendererDrawFPS fixedBuffer_id 0) /\
     (loop_body (frequency env) f s).1 !! 3%nat
       = Some (call_RendererDrawFPS floatBuffer_id 0)).
Proof.
  intros Hlen. split; [|split; [|split; [|split]]].
  - intros value. now apply draw_fps_confined.
  - destruct (draw_fps_confined buf 0 Hlen) as (out & Hout & _). eauto.
  - intros i (Hx & Hy) Hw. destruct fps_origin_fits. lia.
  - intros shell freq f s. split; [apply loop_body_render_first|].
    split; reflexivity.
  - intros shell env frames k s f Hk Hit.
    destruct (first_frames_invariant _ _ _ _ _ 0 Hit) as (Hfps & _);
      try reflexivity; try lia.
    cbn [fst] in Hfps. split; [exact Hfps|].
    destruct (loop_body_paths (frequency env) f s)
      as [(Hfix & ->) | [(Hfix & Hflo & ->) | (Hfix & Hflo & ->)]];
      cbn [fst render_calls app]; rewrite Hfps; split; reflexivity.
Qed.

End DrawFPSProperties.

(** * Properties of the game-state model *)

Section GameProperties.

Variable unit : Z.
Variables facing_x facing_y : Z -> Z.
Variables move_speed turn_speed full_turn : Z.
Variable ConstructGame : Game.State.

Abbreviation Move :=
  (Game.Move unit facing_x facing_y move_speed turn_speed full_turn).
Abbreviation target := (Game.target unit facing_x facing_y move_speed).
Abbreviation turn := (Game.turn turn_speed full_turn).
Abbreviation reachable :=
  (Game.reachable unit facing_x facing_y move_speed turn_speed full_turn
                  ConstructGame).

Abbreviation position_free := (Game.position_free unit).

(** The pose [ConstructGame] starts from is not inside a wall. *)
Hypothesis start_free : position_free ConstructGame.

Lemma Move_keeps_free s m r elapsed :
  position_free s -> position_free (Move s m r elapsed).
Proof.
  unfold Game.position_free, Game.Move. intros Hs.
  destruct (target (Game.pose s) m elapsed) as [x y].
  destruct (Game.inside_solid unit (Game.map s) x y) eqn:E; simpl; assumption.
Qed.

Lemma reachable_free s : reachable s -> position_free s.
Proof.
  induction 1 as [|s m r elapsed _ IH]; [exact start_free|].
  now apply Move_keeps_free.
Qed.

(** C3. From every game state that calls of [GameMove] lead to, and for
    all arguments of a further call, the position after the call is not
    inside a solid cell: a translation whose target lies in a solid cell
    is rejected and leaves the position where it was, any other is
    committed; the facing angle is turned in either case and the map is
    left alone. *)
Theorem move_never_enters_solid s m r elapsed :
  reachable s ->
  position_free (Move s m r elapsed) /\
  (Game.inside_solid unit (Game.map s)
     (target (Game.pose s) m elapsed).1 (target (Game.pose s) m elapsed).2
   = true ->
   Game.pos_x (Game.pose (Move s m r elapsed)) = Game.pos_x (Game.pose s) /\
   Game.pos_y (Game.pose (Move s m r elapsed)) = Game.pos_y (Game.pose s)) /\
  (Game.inside_solid unit (Game.map s)
     (target (Game.pose s) m elapsed).1 (target (Game.pose s) m elapsed).2
   = false ->
   (Game.pos_x (Game.pose (Move s m r elapsed)),
    Game.pos_y (Game.pose (Move s m r elapsed)))
   = target (Game.pose s) m elapsed) /\
  Game.angle (Game.pose (Move s m r elapsed))
  = turn (Game.angle (Game.pose s)) r elapsed /\
  Game.map (Move s m r elapsed) = Game.map s.
Proof.
  intros Hs. split; [apply Move_keeps_free, reachable_free, Hs|].
  unfold Game.Move.
  destruct (target (Game.pose s) m elapsed) as [x y]; cbn [fst snd].
  destruct (Game.inside_solid unit (Game.map s) x y); simpl;
    repeat split; intros; congruence.
Qed.

End GameProperties.

(** * The frame buffer as the texture receives it *)

Lemma testbit_255 k : Z.testbit 255 k = (0 <=? k) && (k <? 8).
Proof. change 255 with (Z.ones 8). apply Z.testbit_ones. lia. Qed.

Lemma byte_bit p sh n :
  0 <= sh -> 0 <= n ->
  Z.testbit (Z.shiftl (Z.land (Z.shiftr p sh) 255) sh) n
  = Z.testbit p n && ((sh <=? n) && (n <? sh + 8)).
Proof.
  intros Hsh Hn. rewrite Z.shiftl_spec by lia.
  destruct (Z.leb_spec sh n) as [Hle|Hlt].
  - rewrite Z.land_spec, Z.shiftr_spec, testbit_255 by lia.
    replace (n - sh + sh) with n by lia. f_equal.
    destruct (Z.leb_spec 0 (n - sh)), (Z.ltb_spec (n - sh) 8),
      (Z.ltb_spec n (sh + 8)); simpl; try reflexivity; lia.
  - rewrite Z.testbit_neg_r by lia. simpl. now rewrite andb_false_r.
Qed.

Lemma le_word_le_bytes p :
  0 <= p < 2 ^ 32 ->
  le_word (Z.land p 255) (Z.land (Z.shiftr p 8) 255)
          (Z.land (Z.shiftr p 16) 255) (Z.land (Z.shiftr p 24) 255) = p.
Proof.
  intros Hp. unfold le_word. apply Z.bits_inj'. intros n Hn.
  rewrite !Z.lor_spec, !byte_bit by lia.
  rewrite Z.land_spec, testbit_255.
  destruct (Z.ltb_spec n 32) as [Hlt|Hge].
  - destruct (Z.testbit p n); simpl; [|reflexivity].
    destruct (Z.leb_spec 0 n), (Z.ltb_spec n 8), (Z.leb_spec 8 n),
      (Z.ltb_spec n (8 + 8)), (Z.leb_spec 16 n), (Z.ltb_spec n (16 + 8)),
      (Z.leb_spec 24 n), (Z.ltb_spec n (24 + 8)); simpl; try reflexivity; lia.
  - assert (Hhigh : Z.testbit p n = false).
    { rewrite <- (Z.mod_small p (2 ^ 32)) by lia.
      apply Z.mod_pow2_bits_high. lia. }
    rewrite Hhigh. reflexivity.
Qed.

Lemma length_buffer_bytes be fb :
  length (buffer_bytes be fb) = (4 * length fb)%nat.
Proof.
  induction fb as [|p fb IH]; simpl; [reflexivity|].
  rewrite length_app, IH. destruct be; simpl; lia.
Qed.

Lemma bytes_pixels_buffer_bytes be fb :
  Forall (fun p => 0 <= p < 2 ^ 32) fb ->
  bytes_pixels be (length fb) (buffer_bytes be fb) = fb.
Proof.
  induction 1 as [|p fb Hp _ IH]; [reflexivity|].
  destruct be; simpl; rewrite le_word_le_bytes by exact Hp;
    f_equal; exact IH.
Qed.

Section UploadProperties.

Context `{Core}.

(** C6. A frame buffer is an array of [SCREEN_WIDTH * SCREEN_HEIGHT]
    32-bit pixels.  [draw_buffer] copies its whole object representation,
    [SCREEN_WIDTH * SCREEN_HEIGHT * 4] bytes and no more, which is the
    size of a [SCREEN_WIDTH] by [SCREEN_HEIGHT] texture at the four bytes
    per pixel of ABGR8888, the format and size both textures are created
    with.  Texture memory of that size holds exactly the buffer's bytes
    after the copy, and read back as native 32-bit pixels it gives the
    buffer's pixels again, alpha in the top byte, then blue, green and
    red. *)
Theorem framebuffer_matches_texture sdlTexture b fb dx :
  Z.of_nat (length fb) = SCREEN_WIDTH * SCREEN_HEIGHT ->
  Forall (fun p => 0 <= p < 2 ^ 32) fb ->
  (draw_buffer 0 sdlTexture b fb dx).1 !! 1%nat
    = Some (call_memcpy sdlTexture b (buffer_bytes big_endian fb)) /\
  Z.of_nat (length (buffer_bytes big_endian fb))
    = SCREEN_WIDTH * SCREEN_HEIGHT * 4 /\
  SCREEN_WIDTH * SCREEN_HEIGHT * 4
    = SCREEN_WIDTH * SCREEN_HEIGHT * bytes_per_pixel SDL_PIXELFORMAT_ABGR8888 /\
  setup_calls !! 10%nat
    = Some (call_SDL_CreateTexture fixedTexture SDL_PIXELFORMAT_ABGR8888
                                   SCREEN_WIDTH SCREEN_HEIGHT) /\
  setup_calls !! 11%nat
    = Some (call_SDL_CreateTexture floatTexture SDL_PIXELFORMAT_ABGR8888
                                   SCREEN_WIDTH SCREEN_HEIGHT) /\
  (forall pixels,
     Z.of_nat (length pixels) = SCREEN_WIDTH * SCREEN_HEIGHT * 4 ->
     memcpy pixels (buffer_bytes big_endian fb)
            (Z.to_nat (SCREEN_WIDTH * SCREEN_HEIGHT * 4))
     = buffer_bytes big_endian fb) /\
  bytes_pixels big_endian (Z.to_nat (SCREEN_WIDTH * SCREEN_HEIGHT))
               (buffer_bytes big_endian fb) = fb /\
  (forall p,
     host_bytes false p
     = [(abgr_channels p).2; (abgr_channels p).1.2;
        (abgr_channels p).1.1.2; (abgr_channels p).1.1.1] /\
     host_bytes true p
     = [(abgr_channels p).1.1.1; (abgr_channels p).1.1.2;
        (abgr_channels p).1.2; (abgr_channels p).2]).
Proof.
  intros Hlen Hrange.
  pose proof (length_buffer_bytes big_endian fb) as Hbytes.
  assert (Hn : Z.to_nat (SCREEN_WIDTH * SCREEN_HEIGHT * 4)
               = length (buffer_bytes big_endian fb)) by lia.
  split; [|split; [|split; [|split; [|split; [|split; [|split]]]]]].
  - unfold draw_buffer. simpl. rewrite Hn, firstn_all. reflexivity.
  - lia.
  - reflexivity.
  - reflexivity.
  - reflexivity.
  - intros pixels Hpix. unfold memcpy.
    rewrite Hn, firstn_all, drop_ge by lia. apply app_nil_r.
  - replace (Z.to_nat (SCREEN_WIDTH * SCREEN_HEIGHT)) with (length fb) by lia.
    now apply bytes_pixels_buffer_bytes.
  - intros p. split; reflexivity.
Qed.

End UploadProperties.

(** * The time step handed to [GameMove] *)

Section TimeStep.

Context `{Core}.

(** The shell's time step is the wrapped counter difference divided by
    the frequency shifted right by eight. *)
Lemma loop_body_time_step freq f s m r elapsed :
  In (call_GameMove m r elapsed) (loop_body freq f s).1 ->
  elapsedTimeUnits (wrap64 (counter f - tickCounter s)) freq = Some elapsed.
Proof.
  destruct (loop_body_paths freq f s)
    as [(Hfix & ->) | [(Hfix & Hflo & ->) | (Hfix & Hflo & ->)]];
    cbn [fst render_calls draw_buffer Z.eqb negb app].
  1-2: simpl; intuition discriminate.
  destruct (handle_events_fields f (render s)) as (_ & _ & _ & Ht & _).
  unfold update. rewrite Ht. cbn [render tickCounter].
  destruct (_ && _); [simpl; intuition discriminate|].
  destruct (60 <=? _);
    destruct (elapsedTimeUnits _ _) as [e|]; simpl;
    intuition (try discriminate; congruence).
Qed.

End TimeStep.

Lemma elapsedTimeUnits_exact ticks freq :
  0 < freq -> freq mod 256 = 0 ->
  elapsedTimeUnits ticks freq = Some (documented_elapsedTimeUnits ticks freq).
Proof.
  intros Hpos Hdiv. unfold elapsedTimeUnits, documented_elapsedTimeUnits.
  rewrite Z.shiftr_div_pow2 by lia. change (2 ^ 8) with 256.
  pose proof (Z.div_mod freq 256 ltac:(lia)) as Hq.
  destruct (Z.eqb_spec (freq / 256) 0) as [E|E]; [lia|].
  f_equal. replace freq with (freq / 256 * 256) at 2 by lia.
  now rewrite Z.div_mul_cancel_r by lia.
Qed.

Lemma elapsedTimeUnits_at_least ticks freq :
  0 <= ticks -> 256 <= freq ->
  exists elapsed,
    elapsedTimeUnits ticks freq = Some elapsed /\
    documented_elapsedTimeUnits ticks freq <= elapsed.
Proof.
  intros Hticks Hfreq. unfold elapsedTimeUnits, documented_elapsedTimeUnits.
  rewrite Z.shiftr_div_pow2 by lia. change (2 ^ 8) with 256.
  pose proof (Z.div_mod freq 256 ltac:(lia)) as Hq.
  pose proof (Z.mod_pos_bound freq 256 ltac:(lia)) as Hr.
  destruct (Z.eqb_spec (freq / 256) 0) as [E|E]; [lia|].
  eexists. split; [reflexivity|].
  rewrite <- (Z.div_mul_cancel_r ticks (freq / 256) 256) by lia.
  apply Z.div_le_compat_l; nia.
Qed.

Lemma elapsedTimeUnits_undefined ticks freq :
  0 <= freq < 256 -> elapsedTimeUnits ticks freq = None.
Proof.
  intros Hfreq. unfold elapsedTimeUnits.
  rewrite Z.shiftr_div_pow2 by lia. change (2 ^ 8) with 256.
  rewrite Z.div_small by lia. reflexivity.
Qed.

(** * Runs of the small configuration *)

(** C5. With a performance counter of 10 MHz and a frame of 39062
    ticks the shell passes 1 to [GameMove], where the elapsed time on a
    scale of 256 units per second, (ticks * 256) / frequency, is 0; with
    a counter of 1 kHz and 16 ticks it computes 5 where that scale
    gives 4. *)
Theorem elapsed_time_off_documented_scale :
  (loop_body (H:=Small.core) 10000000 Small.frame1 (initial Small.env)).1
    !! 16%nat = Some (call_GameMove 1 0 1) /\
  elapsedTimeUnits 39062 10000000 = Some 1 /\
  documented_elapsedTimeUnits 39062 10000000 = 0 /\
  elapsedTimeUnits 16 1000 = Some 5 /\
  documented_elapsedTimeUnits 16 1000 = 4.
Proof. repeat split; vm_compute; reflexivity. Qed.

(** The first frame of the small configuration: both buffers come out of
    the traces of the initial game state. *)
Lemma traces_complete_before_presentation_witness :
  exists s',
    (loop_body (H:=Small.core) 10000000 Small.frame1 (initial Small.env)).2
    = Next s' /\
    floatBuffer s'
    = @RendererDrawFPS Small.core
        (@RendererTraceFrame Small.core FloatPoint Small.start [7; 7; 7; 7])
        0 /\
    fixedBuffer s'
    = @RendererDrawFPS Small.core
        (@RendererTraceFrame Small.core FixedPoint Small.start [9; 9; 9; 9])
        0.
Proof.
  eexists. split; [reflexivity|].
  destruct (traces_complete_before_presentation (H:=Small.core)
              10000000 Small.frame1 (initial Small.env) Small.env [])
    as (_ & _ & _ & _ & _ & _ & Hbuffers & _).
  apply Hbuffers. reflexivity.
Defined.

(** Two differently filled 2 x 2 buffers trace to the same frame. *)
Lemma trace_frame_overwrites_every_pixel_witness :
  exists out,
    Small.TraceFrame Small.start [7; 7; 7; 7] = Some out /\
    Small.TraceFrame Small.start [9; 9; 9; 9] = Some out /\
    out !! 3%nat = Some 0xFF606060.
Proof.
  destruct (trace_frame_overwrites_every_pixel 2 2 Game.Pose Game.Map
              Small.cast 64 0xFF303030 0xFF606060 Small.wall_color
              (Game.pose Small.start) (Game.map Small.start)
              [7; 7; 7; 7] eq_refl)
    as ((out & Hout & _ & Hpix & Hstale) & _).
  exists out. split; [exact Hout|]. split.
  - apply Hstale. reflexivity.
  - apply (Hpix 3%nat). simpl. lia.
Defined.

(** In the small room a long step forward would end in the wall and is
    rejected, while the turn that comes with it is made. *)
Lemma move_never_enters_solid_witness :
  Game.position_free 256 (Small.Move Small.start 1 1 200) /\
  Game.pos_x (Game.pose (Small.Move Small.start 1 1 200)) = 384 /\
  Game.angle (Game.pose (Small.Move Small.start 1 1 200)) = 0.
Proof.
  destruct (move_never_enters_solid 256 Small.facing_x Small.facing_y 1 1 4
              Small.start eq_refl Small.start 1 1 200
              (Game.reach_construct _ _ _ _ _ _ _))
    as (Hfree & Hreject & _ & Hturn & _).
  split; [exact Hfree|]. split.
  - apply Hreject. reflexivity.
  - etransitivity; [exact Hturn|reflexivity].
Defined.

(** The first frame of a run of the small configuration is presented
    before any input is polled and before any call to [GameMove]. *)
Lemma first_frame_shown_before_input :
  (main (H:=Small.core) Small.env [Small.frame1; Small.frame_quit]).1
    !! 24%nat = Some call_SDL_RenderPresent /\
  ~ follows_documented_flow
      (main (H:=Small.core) Small.env [Small.frame1; Small.frame_quit]).1 24.
Proof.
  split; [reflexivity|].
  intros (i & j & k & ci & cj & ck & Hijk & Hk & Hi & Hpoll & _).
  assert (Hnone : forallb (fun c => negb (is_poll c))
                    (take 24 (main (H:=Small.core) Small.env
                                [Small.frame1; Small.frame_quit]).1) = true)
    by reflexivity.
  rewrite forallb_forall in Hnone.
  assert (Hin : In ci (take 24 (main (H:=Small.core) Small.env
                                  [Small.frame1; Small.frame_quit]).1)).
  { apply list_elem_of_In, list_elem_of_lookup. exists i.
    rewrite lookup_take_lt by lia. exact Hi. }
  specialize (Hnone _ Hin). rewrite Hpoll in Hnone. discriminate.
Defined.

(** A 2 x 2 buffer of four opaque colours reaches the texture intact. *)
Lemma framebuffer_matches_texture_witness :
  bytes_pixels false 4
    (buffer_bytes false [0xFF0000FF; 0xFF00FF00; 0xFFFF0000; 0x80FFFFFF])
  = [0xFF0000FF; 0xFF00FF00; 0xFFFF0000; 0x80FFFFFF].
Proof.
  apply (framebuffer_matches_texture (H:=Small.core)
           fixedTexture fixedBuffer_id
           [0xFF0000FF; 0xFF00FF00; 0xFFFF0000; 0x80FFFFFF] 0).
  - reflexivity.
  - repeat constructor; lia.
Defined.

(** The readout of the small configuration occupies the top-left pixel:
    drawing 0 into a traced frame changes nothing else. *)
Lemma draw_fps_confined_and_zero_at_start_witness :
  (exists out,
     Small.DrawFPS [1; 2; 3; 4] 0 = Some out /\
     out !! 1%nat = Some 2 /\ out !! 2%nat = Some 3 /\ out !! 3%nat = Some 4) /\
  (loop_body (H:=Small.core) 10000000 Small.frame1 (initial Small.env)).1
    !! 2%nat = Some (call_RendererDrawFPS fixedBuffer_id 0).
Proof.
  destruct (draw_fps_confined_and_zero_at_start 2 2 Renderer.TopLeft 1 1
              (fun v _ _ => 0xFF000000 + v)
              ltac:(lia) ltac:(lia) [1; 2; 3; 4] eq_refl)
    as (Hall & _ & _ & _ & Hshell).
  split.
  - destruct (Hall 0) as (out & Hout & _ & Hkeep).
    exists out. split; [exact Hout|].
    repeat split; apply Hkeep; unfold Renderer.in_fps_region; simpl; lia.
  - apply (Hshell Small.core Small.env [Small.frame1] 0%nat
                  (initial Small.env) Small.frame1); [lia|reflexivity].
Defined.

(** A run of the small configuration whose first [SDL_LockTexture]
    fails: both casters are constructed, the process leaves through
    [exit(1)], and no [Destruct] is ever called. *)
Lemma teardown_skipped_on_exit :
  (main (H:=Small.core) Small.env [Small.frame_lock_fails]).2 = Exited 1 /\
  ~ paired_lifecycle
      (main (H:=Small.core) Small.env [Small.frame_lock_fails]).1.
Proof.
  split; [reflexivity|].
  intros Hpaired. specialize (Hpaired FloatPoint eq_refl).
  assert (Hnone : count (is_destruct FloatPoint)
                    (main (H:=Small.core) Small.env [Small.frame_lock_fails]).1
                  = 0%nat) by reflexivity.
  rewrite Hnone in Hpaired. discriminate.
Defined.

(** A run of the small configuration that ends with the window being
    closed tears each caster down once. *)
Lemma caster_lifecycle_witness :
  count (is_destruct FloatPoint)
    (main (H:=Small.core) Small.env [Small.frame1; Small.frame_quit]).1
  = 1%nat /\
  count (is_destruct FixedPoint)
    (main (H:=Small.core) Small.env [Small.frame1; Small.frame_quit]).1
  = 1%nat.
Proof.
  split.
  - destruct (caster_lifecycle (H:=Small.core) Small.env
                [Small.frame1; Small.frame_quit] FloatPoint)
      as (_ & _ & _ & _ & Hended & _);
      [discriminate | reflexivity |].
    apply Hended. eexists. reflexivity.
  - destruct (caster_lifecycle (H:=Small.core) Small.env
                [Small.frame1; Small.frame_quit] FixedPoint)
      as (_ & _ & _ & _ & Hended & _);
      [discriminate | reflexivity |].
    apply Hended. eexists. reflexivity.
Defined.

(** Two keys go down within one frame: the iteration handles the first
    and leaves the second in the queue. *)
Lemma one_event_per_iteration_witness :
  exists s',
    (loop_body (H:=Small.core) 10000000 Small.frame_two_keys
               (initial Small.env)).2 = Next s' /\
    event_queue s' = [Small.key SDL_KEYDOWN SDLK_LEFT] /\
    moveDirection s' = 1 /\ rotateDirection s' = 0.
Proof.
  eexists. split; [reflexivity|].
  destruct (one_event_per_iteration (H:=Small.core) 10000000
              Small.frame_two_keys (initial Small.env)) as (_ & Hnext).
  destruct (Hnext _ eq_refl) as (_ & Hqueue & Hdirs).
  split; [rewrite Hqueue; reflexivity|].
  split.
  - exact (f_equal (fun x => x.2.1) Hdirs).
  - exact (f_equal (fun x => x.2.2) Hdirs).
Defined.

(** * Further properties of [process_event] *)

(** Case analysis on every comparison [process_event] makes. *)
Ltac event_cases :=
  unfold process_event;
  repeat match goal with
         | |- context [Z.eqb ?a ?b] => destruct (Z.eqb_spec a b)
         end;
  cbn [fst snd orb andb].

Ltac by_constants :=
  unfold SDL_QUIT, SDL_KEYDOWN, SDL_KEYUP, SDLK_ESCAPE, SDLK_UP, SDLK_DOWN,
    SDLK_LEFT, SDLK_RIGHT in *; lia.

Lemma process_event_quits event m r :
  (process_event event m r).1 = true <-> asks_to_quit event.
Proof.
  unfold asks_to_quit. event_cases; split;
    try discriminate; try (intros _; tauto);
    intros [Hq | ([Hd | Hu] & Hr & Hs)]; try congruence; by_constants.
Qed.

(** X1. [process_event] returns true exactly for the window-close event and
    for a non-repeat press or release of the escape key, and in that
    case leaves both directions as they were. *)
Theorem process_event_quits_iff event m r :
  ((process_event event m r).1 = true <-> asks_to_quit event) /\
  (asks_to_quit event -> (process_event event m r).2 = (m, r)).
Proof.
  split; [apply process_event_quits|].
  unfold asks_to_quit. event_cases; try reflexivity;
    intros [Hq | ([Hd | Hu] & Hr & Hs)]; try congruence; by_constants.
Qed.

(** X2. Events that are no window-close and are a key repeat, or no keyboard
    event at all, or about a key other than escape and the four arrows,
    change nothing and do not end the loop. *)
Theorem process_event_ignores event m r :
  ev_type event <> SDL_QUIT ->
  ev_repeat event <> 0 \/
  (ev_type event <> SDL_KEYDOWN /\ ev_type event <> SDL_KEYUP) \/
  (ev_sym event <> SDLK_ESCAPE /\ ev_sym event <> SDLK_UP /\
   ev_sym event <> SDLK_DOWN /\ ev_sym event <> SDLK_LEFT /\
   ev_sym event <> SDLK_RIGHT) ->
  process_event event m r = (false, (m, r)).
Proof.
  intros Hq Hcases. event_cases; try reflexivity; exfalso;
    destruct Hcases as [Hr | [(Hd & Hu) | (He & Hup & Hdn & Hl & Hrt)]];
    congruence.
Qed.

(** X3. An event changes at most one of the two directions: [moveDirection]
    only when it is a non-repeat event of the up or down key,
    [rotateDirection] only when it is one of the left or right key; an
    event that changes a direction never ends the loop. *)
Theorem process_event_one_axis event m r :
  ((process_event event m r).2.1 <> m ->
   (ev_sym event = SDLK_UP \/ ev_sym event = SDLK_DOWN) /\
   ev_repeat event = 0 /\
   (process_event event m r).2.2 = r /\
   (process_event event m r).1 = false) /\
  ((process_event event m r).2.2 <> r ->
   (ev_sym event = SDLK_LEFT \/ ev_sym event = SDLK_RIGHT) /\
   ev_repeat event = 0 /\
   (process_event event m r).2.1 = m /\
   (process_event event m r).1 = false).
Proof.
  event_cases; split; intros Hne; try congruence; auto.
Qed.

(** A held-down up key that auto-repeats is ignored. *)
Lemma process_event_ignores_witness :
  process_event (mkEvent SDL_KEYDOWN 1 SDLK_UP) 0 (-1) = (false, (0, -1)).
Proof.
  apply process_event_ignores.
  - discriminate.
  - left. discriminate.
Defined.

(** * Further properties of the main loop *)

Section ShellExtras.

Context `{Core}.

(** What a time step that runs to its end does. *)
Lemma update_spec freq nextCounter s s' :
  (update freq nextCounter s).2 = Next s' ->
  exists elapsed,
    elapsedTimeUnits (wrap64 (nextCounter - tickCounter s)) freq
      = Some elapsed /\
    (update freq nextCounter s).1
      = [call_SDL_GetPerformanceCounter; call_SDL_GetPerformanceFrequency;
         call_GameMove (moveDirection s) (rotateDirection s) elapsed] /\
    game s' = GameMove (game s) (moveDirection s) (rotateDirection s) elapsed /\
    ((wrap32 (fpsCounter s + 1) < 60 /\
      fpsCounter s' = wrap32 (fpsCounter s + 1) /\
      fpsAccumulator s'
        = wrap64 (fpsAccumulator s + wrap64 (nextCounter - tickCounter s)) /\
      displayFPS s' = displayFPS s) \/
     (60 <= wrap32 (fpsCounter s + 1) /\
      wrap64 (fpsAccumulator s + wrap64 (nextCounter - tickCounter s)) <> 0 /\
      fpsCounter s' = 0 /\ fpsAccumulator s' = 0 /\
      displayFPS s'
        = wrap32 (wrap64 (freq * wrap32 (fpsCounter s + 1))
                  / wrap64 (fpsAccumulator s
                            + wrap64 (nextCounter - tickCounter s))))).
Proof.
  unfold update.
  destruct (Z.leb_spec 60 (wrap32 (fpsCounter s + 1))) as [Hge|Hlt];
    destruct (Z.eqb_spec
                (wrap64 (fpsAccumulator s
                         + wrap64 (nextCounter - tickCounter s))) 0)
      as [Hz|Hnz];
    cbn [andb]; try discriminate;
    destruct (elapsedTimeUnits _ _) as [elapsed|]; try discriminate;
    intros [= <-]; exists elapsed; cbn;
    (split; [reflexivity|]); (split; [reflexivity|]);
    (split; [reflexivity|]).
  - right. repeat split; try assumption; lia.
  - left. repeat split; lia.
  - left. repeat split; lia.
Qed.

(** What an iteration that runs to its end does. *)
Lemma loop_body_completed freq f s s' :
  (loop_body freq f s).2 = Next s' ->
  lock_fixed f = 0 /\ lock_float f = 0 /\
  exists elapsed,
    elapsedTimeUnits (wrap64 (counter f - tickCounter s)) freq
      = Some elapsed /\
    (loop_body freq f s).1
      = render_calls s ++
        (draw_buffer 0 fixedTexture fixedBuffer_id (rendered_fixed s) 0).1 ++
        (draw_buffer 0 floatTexture floatBuffer_id (rendered_float s)
                     (SCREEN_WIDTH + 1)).1 ++
        [call_SDL_RenderPresent; call_SDL_PollEvent;
         call_SDL_GetPerformanceCounter; call_SDL_GetPerformanceFrequency;
         call_GameMove (moveDirection s') (rotateDirection s') elapsed] /\
    game s'
      = GameMove (game s) (moveDirection s') (rotateDirection s') elapsed /\
    tickCounter s' = counter f /\
    ((wrap32 (fpsCounter s + 1) < 60 /\
      fpsCounter s' = wrap32 (fpsCounter s + 1) /\
      fpsAccumulator s'
        = wrap64 (fpsAccumulator s + wrap64 (counter f - tickCounter s)) /\
      displayFPS s' = displayFPS s) \/
     (60 <= wrap32 (fpsCounter s + 1) /\
      wrap64 (fpsAccumulator s + wrap64 (counter f - tickCounter s)) <> 0 /\
      fpsCounter s' = 0 /\ fpsAccumulator s' = 0 /\
      displayFPS s'
        = wrap32 (wrap64 (freq * wrap32 (fpsCounter s + 1))
                  / wrap64 (fpsAccumulator s
                            + wrap64 (counter f - tickCounter s))))).
Proof.
  intros Hnext.
  destruct (loop_body_paths freq f s)
    as [(Hfix & E) | [(Hfix & Hflo & E) | (Hfix & Hflo & E)]];
    rewrite E in Hnext |- *; cbn [fst snd] in *; try discriminate.
  split; [exact Hfix|]. split; [exact Hflo|].
  destruct (update_spec _ _ _ _ Hnext) as (elapsed & He & Hcalls & Hgame & Hfps).
  destruct (update_next _ _ _ _ Hnext) as (Hm & Hr & _ & _ & Ht & _).
  destruct (handle_events_fields f (render s))
    as (Hg & _ & _ & Htc & Hc & Ha & Hd).
  rewrite Htc, Hc, Ha, Hd, Hg in *. cbn [render game tickCounter fpsCounter
    fpsAccumulator displayFPS] in *.
  exists elapsed. split; [exact He|]. split.
  - rewrite Hcalls, Hm, Hr. reflexivity.
  - rewrite Hm, Hr. auto.
Qed.

(** *** What an iteration does to the game *)

(** X4. An iteration that runs to its end calls [GameMove] exactly once, as
    its last call, on the game state the frame was drawn from, with the
    directions as the event polled in this same iteration left them and
    with the time since the previous iteration's counter reading; the
    counter reading of this iteration becomes the next reference. *)
Theorem iteration_moves_game_once freq f s s' :
  (loop_body freq f s).2 = Next s' ->
  exists elapsed,
    elapsedTimeUnits (wrap64 (counter f - tickCounter s)) freq
      = Some elapsed /\
    game s'
      = GameMove (game s) (moveDirection s') (rotateDirection s') elapsed /\
    last (loop_body freq f s).1
      = Some (call_GameMove (moveDirection s') (rotateDirection s') elapsed) /\
    count is_move (loop_body freq f s).1 = 1%nat /\
    tickCounter s' = counter f.
Proof.
  intros Hnext.
  destruct (loop_body_completed _ _ _ _ Hnext)
    as (_ & _ & elapsed & He & Hcalls & Hgame & Ht & _).
  exists elapsed. rewrite Hcalls.
  repeat split; try assumption; reflexivity.
Qed.

(** *** The two views on the screen *)

(** X5. When both textures can be locked, an iteration uploads the traced
    and overlaid fixed-point buffer to the fixed-point texture and draws
    it at the left edge, and the floating-point one to its texture and
    draws it to the right: both rectangles have the scaled screen size,
    the right one starts one scaled pixel column after the left one
    ends, and it ends at the right edge of the window [main] created,
    whose height both have. *)
Theorem views_side_by_side freq f s :
  lock_fixed f = 0 -> lock_float f = 0 ->
  exists left right,
    (loop_body freq f s).1 !! 5%nat
    = Some (call_memcpy fixedTexture fixedBuffer_id
              (take (Z.to_nat (SCREEN_WIDTH * SCREEN_HEIGHT * 4))
                    (buffer_bytes big_endian (rendered_fixed s)))) /\
    (loop_body freq f s).1 !! 7%nat
    = Some (call_SDL_RenderCopy fixedTexture left) /\
    (loop_body freq f s).1 !! 9%nat
    = Some (call_memcpy floatTexture floatBuffer_id
              (take (Z.to_nat (SCREEN_WIDTH * SCREEN_HEIGHT * 4))
                    (buffer_bytes big_endian (rendered_float s)))) /\
    (loop_body freq f s).1 !! 11%nat
    = Some (call_SDL_RenderCopy floatTexture right) /\
    r_x left = 0 /\ r_y left = 0 /\ r_y right = 0 /\
    r_w left = SCREEN_WIDTH * SCREEN_SCALE /\ r_w right = r_w left /\
    r_h left = SCREEN_HEIGHT * SCREEN_SCALE /\ r_h right = r_h left /\
    r_x right = r_x left + r_w left + SCREEN_SCALE /\
    setup_calls !! 1%nat
    = Some (call_SDL_CreateWindow (r_x right + r_w right) (r_h left)).
Proof.
  intros Hfix Hflo.
  destruct (loop_body_paths freq f s)
    as [(Hfix' & E) | [(_ & Hflo' & E) | (_ & _ & E)]]; try contradiction.
  rewrite E. cbn [fst draw_buffer render_calls Z.eqb negb app].
  eexists. eexists.
  repeat (split; [reflexivity|]). cbn [r_x r_y r_w r_h].
  repeat (split; [try reflexivity; ring|]).
  cbn [setup_calls lookup list_lookup]. do 2 f_equal; ring.
Qed.

(** *** A texture that cannot be locked *)

(** X6. When the fixed-point texture cannot be locked the iteration ends in
    [exit(1)] right after the message: nothing is uploaded, drawn or
    presented, no event is polled and the game is not moved.  When only
    the floating-point texture cannot be locked, the fixed-point view
    has been uploaded and drawn by then, but the frame is still not
    presented, no event is polled and the game is not moved. *)
Theorem failed_lock_stops_frame freq f s :
  (lock_fixed f <> 0 ->
   (loop_body freq f s).2 = Exit 1 /\
   last (loop_body freq f s).1 = Some (call_exit 1) /\
   count is_present (loop_body freq f s).1 = 0%nat /\
   count is_poll (loop_body freq f s).1 = 0%nat /\
   count is_move (loop_body freq f s).1 = 0%nat) /\
  (lock_fixed f = 0 -> lock_float f <> 0 ->
   (loop_body freq f s).2 = Exit 1 /\
   last (loop_body freq f s).1 = Some (call_exit 1) /\
   count is_upload (loop_body freq f s).1 = 1%nat /\
   count is_render_present (loop_body freq f s).1 = 0%nat /\
   count is_poll (loop_body freq f s).1 = 0%nat /\
   count is_move (loop_body freq f s).1 = 0%nat).
Proof.
  split.
  - intros Hfix.
    destruct (loop_body_paths freq f s)
      as [(_ & E) | [(Hfix' & _ & E) | (Hfix' & _ & E)]]; try contradiction.
    rewrite E. repeat split.
  - intros Hfix Hflo.
    destruct (loop_body_paths freq f s)
      as [(Hfix' & E) | [(_ & _ & E) | (_ & Hflo' & E)]]; try contradiction.
    rewrite E. repeat split.
Qed.

(** *** How an iteration ends *)

(** X7. An iteration ends the process with [exit], and then with status 1,
    exactly when one of the two [SDL_LockTexture] calls fails; it runs
    into a division by zero exactly when both succeed and either the
    performance frequency is below 256 or sixty frames have been counted
    whose ticks add up to 0 modulo 2^64; in every other case it runs to
    its end. *)
Theorem loop_body_outcome freq f s :
  ((loop_body freq f s).2 = Exit 1 <->
   lock_fixed f <> 0 \/ lock_float f <> 0) /\
  (forall code, (loop_body freq f s).2 = Exit code -> code = 1) /\
  ((loop_body freq f s).2 = Undefined <->
   lock_fixed f = 0 /\ lock_float f = 0 /\
   (Z.shiftr freq 8 = 0 \/
    (60 <= wrap32 (fpsCounter s + 1) /\
     wrap64 (fpsAccumulator s + wrap64 (counter f - tickCounter s)) = 0))) /\
  ((exists s', (loop_body freq f s).2 = Next s') <->
   lock_fixed f = 0 /\ lock_float f = 0 /\ Z.shiftr freq 8 <> 0 /\
   (wrap32 (fpsCounter s + 1) < 60 \/
    wrap64 (fpsAccumulator s + wrap64 (counter f - tickCounter s)) <> 0)).
Proof.
  destruct (handle_events_fields f (render s))
    as (_ & _ & _ & Htc & Hc & Ha & _).
  cbn [render tickCounter fpsCounter fpsAccumulator] in *.
  assert (Hpaths :
    (lock_fixed f <> 0 \/ lock_float f <> 0) /\ (loop_body freq f s).2 = Exit 1
    \/ lock_fixed f = 0 /\ lock_float f = 0 /\
       (loop_body freq f s).2
       = (update freq (counter f) (handle_events f (render s))).2).
  { destruct (loop_body_paths freq f s)
      as [(Hfix & E) | [(Hfix & Hflo & E) | (Hfix & Hflo & E)]];
      rewrite E; cbn [snd]; auto. }
  destruct Hpaths as [(Hlock & ->) | (Hfix & Hflo & ->)].
  - split; [|split; [|split]].
    + split; [intros _; exact Hlock | reflexivity].
    + intros code [= <-]. reflexivity.
    + split; [discriminate | intros (Hf1 & Hf2 & _); lia].
    + split; [intros [s' Hs']; discriminate | intros (Hf1 & Hf2 & _); lia].
  - unfold update, elapsedTimeUnits. rewrite Htc, Hc, Ha.
    destruct (Z.leb_spec 60 (wrap32 (fpsCounter s + 1)));
      destruct (Z.eqb_spec
                  (wrap64 (fpsAccumulator s
                           + wrap64 (counter f - tickCounter s))) 0);
      destruct (Z.eqb_spec (Z.shiftr freq 8) 0);
      cbn [andb snd];
      (split;
       [ split; [discriminate | lia]
       | split;
         [ discriminate
         | split;
           [ split; first [discriminate | reflexivity | lia]
           | split; [ first [ (intros [s' Hs']; discriminate) | lia ]
                    | first [ (intros _; eexists; reflexivity) | lia ] ] ] ] ]).
Qed.

(** *** Leaving the loop *)

(** X8. An iteration that runs to its end sets [isExiting] exactly when the
    event it polled asks to quit.  The loop then stops after this
    iteration, whose [GameMove] has still been made: later platform
    answers are not consumed, and the events queued behind the quit
    event are never handled.  Otherwise the loop goes on with the next
    iteration. *)
Theorem quit_ends_loop_after_update freq f frames s s' :
  isExiting s = false ->
  (loop_body freq f s).2 = Next s' ->
  (isExiting s' = true <->
   exists event rest,
     event_queue s ++ arrivals f = event :: rest /\ asks_to_quit event) /\
  (isExiting s' = true ->
   main_loop freq (f :: frames) s = ((loop_body freq f s).1, loop_ended s') /\
   count is_move (loop_body freq f s).1 = 1%nat /\
   event_queue s' = drop 1 (event_queue s ++ arrivals f)) /\
  (isExiting s' = false ->
   (main_loop freq (f :: frames) s).1
   = (loop_body freq f s).1 ++ (main_loop freq frames s').1 /\
   (main_loop freq (f :: frames) s).2 = (main_loop freq frames s').2).
Proof.
  intros Hrun Hnext.
  pose proof (loop_body_next _ _ _ _ Hnext) as Hupd.
  destruct (update_next _ _ _ _ Hupd) as (_ & _ & Hq & He & _).
  destruct (handle_events_input f (render s)) as (Hqueue & Hin).
  cbn [render event_queue moveDirection rotateDirection isExiting] in *.
  destruct (loop_body_completed _ _ _ _ Hnext)
    as (_ & _ & elapsed & _ & Hcalls & _).
  split; [|split].
  - rewrite Hq. destruct (event_queue s ++ arrivals f) as [|event rest].
    + injection Hin as -> _ _. rewrite Hrun. split; [discriminate|].
      intros (event & rest & Hnil & _). discriminate.
    + pose proof (process_event_quits event (moveDirection s)
                                      (rotateDirection s)) as Hiff.
      destruct (process_event event _ _) as [quit [m r]].
      injection Hin as -> _ _. cbn [fst] in Hiff. split.
      * intros Hquit. exists event, rest. split; [reflexivity|].
        now apply Hiff.
      * intros (event' & rest' & [= <- <-] & Hquit). now apply Hiff.
  - intros Hexit. split; [|split].
    + cbn [main_loop]. rewrite Hrun.
      destruct (loop_body freq f s) as [calls r]. cbn [snd] in Hnext.
      subst r. destruct frames; cbn [main_loop]; rewrite Hexit;
        now rewrite app_nil_r.
    + rewrite Hcalls. reflexivity.
    + rewrite He. exact Hqueue.
  - intros Hgo. cbn [main_loop]. rewrite Hrun.
    destruct (loop_body freq f s) as [calls r]. cbn [snd] in Hnext.
    subst r. destruct (main_loop freq frames s') as [calls' r'].
    split; reflexivity.
Qed.

(** *** How [main] ends *)

Lemma main_loop_no_quit freq frames s :
  count is_sdl_quit (main_loop freq frames s).1 = 0%nat.
Proof.
  rewrite main_loop_calls. apply count_none.
  induction (iterations freq frames s) as [|[s0 f0] its IH]; simpl.
  - constructor.
  - apply Forall_app. split; [|exact IH].
    destruct (loop_body_paths freq f0 s0)
      as [(Hfix & E) | [(Hfix & Hflo & E) | (Hfix & Hflo & E)]];
      rewrite E; cbn [fst draw_buffer render_calls Z.eqb negb app];
      [ | | destruct (update_calls freq (counter f0)
                        (handle_events f0 (render s0)))
              as (tail & -> & [-> | [-> | ->]]) ];
      repeat constructor.
Qed.

Lemma main_loop_exit freq frames s code :
  (main_loop freq frames s).2 = loop_exit code ->
  code = 1 /\ last (main_loop freq frames s).1 = Some (call_exit 1).
Proof.
  revert s. induction frames as [|f frames IH]; intros s; cbn [main_loop].
  - destruct (isExiting s); discriminate.
  - destruct (isExiting s); [discriminate|].
    destruct (loop_body_paths freq f s)
      as [(Hfix & E) | [(Hfix & Hflo & E) | (Hfix & Hflo & E)]]; rewrite E.
    + intros [= <-]. split; reflexivity.
    + intros [= <-]. split; reflexivity.
    + destruct (update freq (counter f) (handle_events f (render s))).2
        as [s'| code' |] eqn:Hupd.
      * specialize (IH s').
        destruct (main_loop freq frames s') as [calls' r']. cbn [fst snd] in *.
        intros ->. destruct (IH eq_refl) as (-> & Hlast).
        split; [reflexivity|].
        rewrite last_app, Hlast. reflexivity.
      * exfalso. revert Hupd. unfold update.
        destruct (_ && _); [discriminate|].
        destruct (60 <=? _); destruct (elapsedTimeUnits _ _); discriminate.
      * discriminate.
Qed.

(** X9. Whenever [main] returns, it returns 0, also after a failed
    [SDL_Init] or [SDL_CreateWindow], and [SDL_Quit] has been called
    exactly once, as the last call.  When the process ends through
    [exit], the status is 1, [exit(1)] is the last call and [SDL_Quit]
    has not been called; nor is it called while the loop is running. *)
Theorem main_ends env frames :
  match (main env frames).2 with
  | Returned code =>
      code = 0 /\
      last (main env frames).1 = Some call_SDL_Quit /\
      count is_sdl_quit (main env frames).1 = 1%nat
  | Exited code =>
      code = 1 /\
      last (main env frames).1 = Some (call_exit 1) /\
      count is_sdl_quit (main env frames).1 = 0%nat
  | Undefined_behaviour | Running =>
      count is_sdl_quit (main env frames).1 = 0%nat
  end.
Proof.
  unfold main.
  destruct (init_result env <? 0); [repeat split|].
  destruct (window_created env); simpl negb; cbv iota; [|repeat split].
  pose proof (main_loop_no_quit (frequency env) frames (initial env)) as Hq.
  pose proof (main_loop_exit (frequency env) frames (initial env)) as Hexit.
  destruct (main_loop _ _ _) as [calls [s0| code | | s0]]; cbn [fst snd] in *.
  - split; [reflexivity|]. split.
    + rewrite !last_app. reflexivity.
    + rewrite !count_app, Hq. reflexivity.
  - destruct (Hexit code eq_refl) as (-> & Hlast).
    split; [reflexivity|]. split.
    + rewrite last_app, Hlast. reflexivity.
    + rewrite count_app, Hq. reflexivity.
  - rewrite count_app, Hq. reflexivity.
  - rewrite count_app, Hq. reflexivity.
Qed.

End ShellExtras.

(** * Further properties of whole runs *)

Section RunExtras.

Context `{Core}.

(** How a run gets to a later iteration: through an iteration that ran
    to its end without asking to quit. *)
Lemma iterations_later freq f frames s k it :
  iterations freq (f :: frames) s !! S k = Some it ->
  isExiting s = false /\
  exists s', (loop_body freq f s).2 = Next s' /\
             iterations freq frames s' !! k = Some it.
Proof.
  cbn [iterations]. destruct (isExiting s); [discriminate|].
  cbn [lookup list_lookup].
  destruct (loop_body freq f s) as [calls [s'| code |]]; try discriminate.
  intros Hit. split; [reflexivity|]. exists s'. auto.
Qed.

Lemma iterations_first freq frames s it :
  iterations freq frames s !! 0%nat = Some it ->
  isExiting s = false /\ exists f rest, frames = f :: rest /\ it = (s, f).
Proof.
  destruct frames as [|f rest]; cbn [iterations];
    destruct (isExiting s); try discriminate.
  intros [= <-]. split; [reflexivity|]. eauto.
Qed.

(** *** The frame-rate counters *)

Lemma wrap64_range z : 0 <= wrap64 z < 2 ^ 64.
Proof. unfold wrap64. apply Z.mod_pos_bound. lia. Qed.

Lemma wrap32_range z : 0 <= wrap32 z < 2 ^ 32.
Proof. unfold wrap32. apply Z.mod_pos_bound. lia. Qed.

Lemma loop_body_counters freq f s s' :
  counters_in_range s -> (loop_body freq f s).2 = Next s' ->
  counters_in_range s'.
Proof.
  intros (Hc & Ha & Hd) Hnext.
  destruct (loop_body_completed _ _ _ _ Hnext)
    as (_ & _ & elapsed & _ & _ & _ & _ & Hfps).
  pose proof (wrap32_range (fpsCounter s + 1)).
  pose proof (wrap64_range (fpsAccumulator s
                            + wrap64 (counter f - tickCounter s))).
  pose proof (wrap32_range
                (wrap64 (freq * wrap32 (fpsCounter s + 1))
                 / wrap64 (fpsAccumulator s
                           + wrap64 (counter f - tickCounter s)))).
  unfold counters_in_range.
  destruct Hfps as [(Hlt & -> & -> & ->) | (Hge & Hnz & -> & -> & ->)]; lia.
Qed.

Lemma iterations_counters freq frames s :
  counters_in_range s ->
  Forall (fun it => counters_in_range it.1) (iterations freq frames s).
Proof.
  revert s. induction frames as [|f frames IH]; intros s Hs;
    cbn [iterations]; destruct (isExiting s); try constructor.
  - exact Hs.
  - destruct (loop_body freq f s) as [calls [s'| code |]] eqn:E;
      try constructor.
    apply IH. apply (loop_body_counters freq f s); [exact Hs|].
    now rewrite E.
Qed.

(** X10. In every run of [main], at the start of every iteration the frame
    counter is between 0 and 59 and the accumulated ticks and the shown
    frame rate are within their 64-bit and 32-bit types. *)
Theorem fps_counters_stay_in_range env frames :
  Forall (fun it =>
            0 <= fpsCounter it.1 < 60 /\
            0 <= fpsAccumulator it.1 < 2 ^ 64 /\
            0 <= displayFPS it.1 < 2 ^ 32)
         (iterations (frequency env) frames (initial env)).
Proof.
  apply (iterations_counters (frequency env) frames (initial env)).
  unfold counters_in_range. cbn. lia.
Qed.

(** During the first sixty frames the accumulator holds the ticks since
    the counter reading taken before the loop. *)
Lemma warmup_invariant freq c0 frames s k it :
  iterations freq frames s !! k = Some it ->
  0 <= fpsCounter s ->
  fpsCounter s + Z.of_nat k < 60 ->
  fpsAccumulator s = wrap64 (tickCounter s - c0) ->
  fpsCounter it.1 = fpsCounter s + Z.of_nat k /\
  fpsAccumulator it.1 = wrap64 (tickCounter it.1 - c0).
Proof.
  revert s k. induction frames as [|f frames IH]; intros s k Hit Hc Hk Ha.
  - cbn [iterations] in Hit. destruct (isExiting s); discriminate.
  - destruct k as [|k].
    + apply iterations_first in Hit.
      destruct Hit as (_ & f0 & rest & _ & ->). cbn [fst]. split; [lia|exact Ha].
    + apply iterations_later in Hit.
      destruct Hit as (_ & s' & Hnext & Hit).
      destruct (loop_body_completed _ _ _ _ Hnext)
        as (_ & _ & elapsed & _ & _ & _ & Ht & Hfps).
      rewrite wrap32_small in Hfps by lia.
      destruct Hfps as [(Hlt & Hc' & Ha' & _) | (Hge & _)]; [|lia].
      destruct (IH s' k Hit) as (Hres1 & Hres2); try lia.
      rewrite Ha', Ha, Ht. unfold wrap64.
      rewrite <- Zplus_mod. f_equal. lia.
Qed.

(** X11. The sixtieth iteration of a run sets the first frame rate to show:
    sixty times the performance frequency divided by the ticks that
    passed between the counter reading before the loop and the one of
    this iteration, in 64-bit arithmetic and cut to 32 bits; the frame
    counter and the accumulator start again from 0. *)
Theorem first_frame_rate env frames s f s' :
  iterations (frequency env) frames (initial env) !! 59%nat = Some (s, f) ->
  (loop_body (frequency env) f s).2 = Next s' ->
  displayFPS s'
  = wrap32 (wrap64 (frequency env * 60)
            / wrap64 (counter f - counter0 env)) /\
  wrap64 (counter f - counter0 env) <> 0 /\
  fpsCounter s' = 0 /\ fpsAccumulator s' = 0.
Proof.
  intros Hit Hnext.
  destruct (warmup_invariant _ (counter0 env) _ _ _ _ Hit) as (Hc & Ha).
  - cbn. lia.
  - cbn. lia.
  - cbn. now rewrite Z.sub_diag.
  - cbn [fst initial fpsCounter] in Hc, Ha.
    destruct (loop_body_completed _ _ _ _ Hnext)
      as (_ & _ & elapsed & _ & _ & _ & _ & Hfps).
    assert (Hacc : wrap64 (fpsAccumulator s + wrap64 (counter f - tickCounter s))
                   = wrap64 (counter f - counter0 env)).
    { rewrite Ha. unfold wrap64. rewrite <- Zplus_mod. f_equal. lia. }
    rewrite Hc, Hacc in Hfps.
    change (wrap32 (0 + Z.of_nat 59 + 1)) with 60 in Hfps.
    destruct Hfps as [(Hlt & _) | (_ & Hnz & -> & -> & ->)]; [lia|].
    auto.
Qed.

(** *** Events are handled in arrival order, one per frame *)

(** X12. An event with [p] events before it in the queue (pending ones first,
    then the ones that arrived during the frame) is the one polled [p]
    iterations later, if the run gets that far; the events that were
    behind it are still behind it then. *)
Theorem events_polled_in_order freq f frames s before event behind sp fp :
  event_queue s ++ arrivals f = before ++ event :: behind ->
  iterations freq (f :: frames) s !! length before = Some (sp, fp) ->
  exists later,
    event_queue sp ++ arrivals fp = event :: behind ++ later.
Proof.
  revert s f frames behind.
  induction before as [|x before IH]; intros s f frames behind Hq Hit.
  - apply iterations_first in Hit.
    destruct Hit as (_ & f0 & rest & [= <- <-] & [= -> ->]).
    exists []. rewrite app_nil_r. exact Hq.
  - cbn [length] in Hit. apply iterations_later in Hit.
    destruct Hit as (_ & s' & Hnext & Hit).
    pose proof (loop_body_next _ _ _ _ Hnext) as Hupd.
    destruct (update_next _ _ _ _ Hupd) as (_ & _ & _ & He & _).
    destruct (handle_events_input f (render s)) as (Hqueue & _).
    cbn [render event_queue] in Hqueue.
    rewrite Hqueue, Hq in He.
    change (event_queue s' = before ++ event :: behind) in He.
    destruct frames as [|f1 frames].
    { cbn [iterations] in Hit. destruct (isExiting s'); discriminate. }
    destruct (IH s' f1 frames (behind ++ arrivals f1)) as [later Hlater].
    + rewrite He. rewrite <- app_assoc. reflexivity.
    + exact Hit.
    + exists (arrivals f1 ++ later). rewrite Hlater.
      now rewrite <- app_assoc.
Qed.

(** *** Textures are written only while locked *)

Lemma uploads_none (calls : list Call) :
  Forall (fun c => is_upload c = false) calls -> uploads_while_locked calls.
Proof.
  intros Hnone i t b bytes Hi. rewrite Forall_lookup in Hnone.
  specialize (Hnone _ _ Hi). discriminate.
Qed.

Lemma uploads_app (l1 l2 : list Call) :
  uploads_while_locked l1 -> uploads_while_locked l2 ->
  uploads_while_locked (l1 ++ l2).
Proof.
  intros H1 H2 i t b bytes Hi.
  destruct (decide (i < length l1)%nat) as [Hlt|Hge].
  - rewrite lookup_app_l in Hi by exact Hlt.
    destruct (H1 _ _ _ _ Hi) as (Hpair & (j & -> & Hj) & Hun & r & Hr).
    split; [exact Hpair|]. split; [|split].
    + exists j. split; [reflexivity|]. now apply lookup_app_l_Some.
    + now apply lookup_app_l_Some.
    + exists r. now apply lookup_app_l_Some.
  - rewrite lookup_app_r in Hi by lia.
    destruct (H2 _ _ _ _ Hi) as (Hpair & (j & Hij & Hj) & Hun & r & Hr).
    split; [exact Hpair|]. split; [|split].
    + exists (length l1 + j)%nat. split; [lia|].
      rewrite lookup_app_r by lia.
      replace (length l1 + j - length l1)%nat with j by lia. exact Hj.
    + rewrite lookup_app_r by lia.
      replace (S i - length l1)%nat with (S (i - length l1)) by lia.
      exact Hun.
    + exists r. rewrite lookup_app_r by lia.
      replace (S (S i) - length l1)%nat
        with (S (S (i - length l1))) by lia.
      exact Hr.
Qed.

Lemma uploads_flat_map {A} (g : A -> list Call) (l : list A) :
  (forall a, uploads_while_locked (g a)) ->
  uploads_while_locked (flat_map g l).
Proof.
  intros Hg. induction l as [|a l IH]; simpl.
  - apply uploads_none. constructor.
  - apply uploads_app; [apply Hg | exact IH].
Qed.

Lemma draw_buffer_uploads rc dx fb :
  uploads_while_locked
    (draw_buffer rc fixedTexture fixedBuffer_id fb dx).1 /\
  uploads_while_locked
    (draw_buffer rc floatTexture floatBuffer_id fb dx).1.
Proof.
  unfold draw_buffer.
  split; destruct (negb (rc =? 0)); cbn [fst];
    try solve [apply uploads_none; repeat constructor];
    intros i t b' bytes Hi;
    (destruct i as [|[|[|[|i]]]]; try discriminate);
    injection Hi as <- <- <-;
    (split; [tauto|]); (split; [exists 0%nat; split; reflexivity|]);
    (split; [reflexivity|]); eexists; reflexivity.
Qed.

Lemma loop_body_uploads freq f s :
  uploads_while_locked (loop_body freq f s).1.
Proof.
  destruct (draw_buffer_uploads 0 0 (rendered_fixed s)) as (Hfixed & _).
  destruct (draw_buffer_uploads 0 (SCREEN_WIDTH + 1) (rendered_float s))
    as (_ & Hfloat).
  destruct (loop_body_paths freq f s)
    as [(Hfix & E) | [(Hfix & Hflo & E) | (Hfix & Hflo & E)]];
    rewrite E; cbn [fst].
  - apply uploads_none. repeat constructor.
  - apply uploads_app; [apply uploads_none; repeat constructor|].
    apply uploads_app; [exact Hfixed|].
    apply uploads_none; repeat constructor.
  - apply uploads_app; [apply uploads_none; repeat constructor|].
    apply uploads_app; [exact Hfixed|].
    apply uploads_app; [exact Hfloat|].
    destruct (update_calls freq (counter f) (handle_events f (render s)))
      as (tail & -> & [-> | [-> | ->]]);
      apply uploads_none; repeat constructor.
Qed.

(** X13. In every run of [main], whenever a frame buffer is copied into a
    texture it is the buffer of that texture's backend, the texture has
    been locked by the call just before, and it is unlocked by the call
    just after and then drawn with [SDL_RenderCopy]. *)
Theorem textures_written_only_while_locked env frames :
  uploads_while_locked (main env frames).1.
Proof.
  unfold main.
  destruct (init_result env <? 0);
    [apply uploads_none; repeat constructor|].
  destruct (window_created env); simpl negb; cbv iota;
    [|apply uploads_none; repeat constructor].
  assert (Hloop : uploads_while_locked
                    (main_loop (frequency env) frames (initial env)).1).
  { rewrite main_loop_calls. apply uploads_flat_map. intros [s0 f0].
    apply loop_body_uploads. }
  destruct (main_loop _ _ _) as [calls [s0| code | | s0]]; cbn [fst] in *;
    (apply uploads_app; [apply uploads_none; repeat constructor|]);
    try exact Hloop.
  apply uploads_app; [exact Hloop|].
  apply uploads_none; repeat constructor.
Qed.

(** *** Counting the calls of a run *)

Lemma loop_body_counts freq f s :
  count is_trace (loop_body freq f s).1 = 2%nat /\
  count is_render_present (loop_body freq f s).1
  = count is_poll (loop_body freq f s).1 /\
  (count is_move (loop_body freq f s).1
   <= count is_poll (loop_body freq f s).1 <= 1)%nat /\
  (forall s', (loop_body freq f s).2 = Next s' ->
     count is_move (loop_body freq f s).1 = 1%nat).
Proof.
  destruct (loop_body_paths freq f s)
    as [(Hfix & E) | [(Hfix & Hflo & E) | (Hfix & Hflo & E)]];
    rewrite E; cbn [fst snd draw_buffer render_calls Z.eqb negb app].
  - repeat split; try discriminate; unfold count; simpl; lia.
  - repeat split; try discriminate; unfold count; simpl; lia.
  - split; [|split; [|split]].
    4: { intros s' Hnext.
         destruct (update_spec _ _ _ _ Hnext) as (elapsed & _ & -> & _).
         reflexivity. }
    all: destruct (update_calls freq (counter f) (handle_events f (render s)))
           as (tail & -> & [-> | [-> | ->]]); unfold count; simpl; lia.
Qed.

(** X14. In the trace of the loop, every iteration that was started
    contributes two traces and at most one presentation, one poll and
    one [GameMove]; there are as many presentations as polls, no more
    [GameMove] calls than presentations, and only the last iteration
    started can lack its [GameMove]. *)
Theorem loop_call_counts freq frames s :
  count is_trace (main_loop freq frames s).1
  = (2 * length (iterations freq frames s))%nat /\
  count is_render_present (main_loop freq frames s).1
  = count is_poll (main_loop freq frames s).1 /\
  (count is_move (main_loop freq frames s).1
   <= count is_poll (main_loop freq frames s).1
   <= length (iterations freq frames s))%nat /\
  (length (iterations freq frames s)
   <= S (count is_move (main_loop freq frames s).1))%nat.
Proof.
  revert s. induction frames as [|f frames IH]; intros s;
    cbn [main_loop iterations]; destruct (isExiting s);
    try (cbn; repeat split; lia).
  destruct (loop_body_counts freq f s) as (Ht & Hp & Hm & Hnext).
  destruct (loop_body freq f s) as [calls [s'| code |]];
    cbn [fst snd length] in *; try lia.
  specialize (IH s'). specialize (Hnext s' eq_refl).
  destruct (main_loop freq frames s') as [calls' r']; cbn [fst] in *.
  rewrite !count_app. lia.
Qed.

End RunExtras.

(** * Accuracy of the time step *)

(** X15. For a performance frequency of at least 256 the time step is
    defined and lies between the elapsed time on the scale of 256 units
    per second and what that scale would give for a frequency lowered by
    255; it never exceeds the ticks themselves, and it is exact when the
    frequency is a multiple of 256. *)
Theorem time_step_accuracy ticks freq :
  0 <= ticks -> 256 <= freq ->
  exists elapsed,
    elapsedTimeUnits ticks freq = Some elapsed /\
    documented_elapsedTimeUnits ticks freq <= elapsed /\
    elapsed <= documented_elapsedTimeUnits ticks (freq - 255) /\
    elapsed <= ticks /\
    (freq mod 256 = 0 -> elapsed = documented_elapsedTimeUnits ticks freq).
Proof.
  intros Hticks Hfreq.
  destruct (elapsedTimeUnits_at_least ticks freq Hticks Hfreq)
    as (elapsed & He & Hlow).
  exists elapsed. split; [exact He|]. split; [exact Hlow|].
  assert (Hval : elapsed = ticks / (freq / 256)).
  { revert He. unfold elapsedTimeUnits.
    rewrite Z.shiftr_div_pow2 by lia. change (2 ^ 8) with 256.
    destruct (_ =? 0); [discriminate|]. now intros [= <-]. }
  pose proof (Z.div_mod freq 256 ltac:(lia)) as Hq.
  pose proof (Z.mod_pos_bound freq 256 ltac:(lia)) as Hr.
  assert (Hd : 1 <= freq / 256) by (apply Z.div_le_lower_bound; lia).
  split; [|split].
  - subst elapsed. unfold documented_elapsedTimeUnits.
    rewrite <- (Z.div_mul_cancel_r ticks (freq / 256) 256) by lia.
    apply Z.div_le_compat_l; nia.
  - subst elapsed. rewrite <- (Z.div_1_r ticks) at 2.
    apply Z.div_le_compat_l; lia.
  - intros Hdiv.
    pose proof (elapsedTimeUnits_exact ticks freq ltac:(lia) Hdiv) as Hex.
    congruence.
Qed.

(** * Further runs of the small configuration *)

(** A sixtieth of a second on a 1 GHz counter is four units. *)
Lemma time_step_accuracy_witness :
  elapsedTimeUnits 16666667 1000000000 = Some 4 /\
  documented_elapsedTimeUnits 16666667 1000000000 = 4.
Proof.
  destruct (time_step_accuracy 16666667 1000000000 ltac:(lia) ltac:(lia))
    as (elapsed & He & _ & _ & _ & Hexact).
  rewrite He, (Hexact eq_refl). split; reflexivity.
Defined.

(** The first frame moves the player one unit forward: the up key went
    down during it. *)
Lemma iteration_moves_game_once_witness :
  exists s',
    (loop_body (H:=Small.core) 10000000 Small.frame1 (initial Small.env)).2
    = Next s' /\
    game s' = Small.Move Small.start 1 0 1 /\
    tickCounter s' = 40062.
Proof.
  eexists. split; [reflexivity|].
  destruct (iteration_moves_game_once (H:=Small.core) 10000000 Small.frame1
              (initial Small.env) _ eq_refl)
    as (elapsed & He & Hgame & _ & _ & Ht).
  injection He as <-. split; [exact Hgame|exact Ht].
Defined.

(** On the 2 x 2 screen at scale 1 the fixed-point view occupies the
    columns 0 and 1 and the floating-point view the columns 3 and 4. *)
Lemma views_side_by_side_witness :
  (loop_body (H:=Small.core) 10000000 Small.frame1 (initial Small.env)).1
    !! 7%nat = Some (call_SDL_RenderCopy fixedTexture (mkRect 0 0 2 2)) /\
  (loop_body (H:=Small.core) 10000000 Small.frame1 (initial Small.env)).1
    !! 11%nat = Some (call_SDL_RenderCopy floatTexture (mkRect 3 0 2 2)).
Proof.
  destruct (views_side_by_side (H:=Small.core) 10000000 Small.frame1
              (initial Small.env) eq_refl eq_refl)
    as (left & right & _ & Hleft & _ & Hright
        & Hx & Hy & Hy' & Hw & Hw' & Hh & Hh' & Hx' & _).
  destruct left as [x y w h], right as [x' y' w' h'].
  cbn [r_x r_y r_w r_h] in *. subst.
  split; [exact Hleft|exact Hright].
Defined.

(** The frame whose first lock fails leaves through [exit(1)]. *)
Lemma failed_lock_stops_frame_witness :
  (loop_body (H:=Small.core) 10000000 Small.frame_lock_fails
             (initial Small.env)).2 = Exit 1 /\
  count is_present
    (loop_body (H:=Small.core) 10000000 Small.frame_lock_fails
               (initial Small.env)).1 = 0%nat.
Proof.
  destruct (failed_lock_stops_frame (H:=Small.core) 10000000
              Small.frame_lock_fails (initial Small.env)) as (Hfixed & _).
  destruct Hfixed as (Hexit & _ & Hnone & _); [discriminate|].
  split; [exact Hexit|exact Hnone].
Defined.

(** Closing the window ends the loop after that frame; the frame that
    would have followed is never started. *)
Lemma quit_ends_loop_after_update_witness :
  exists s',
    (loop_body (H:=Small.core) 10000000 Small.frame_quit
               (initial Small.env)).2 = Next s' /\
    main_loop (H:=Small.core) 10000000 [Small.frame_quit; Small.frame1]
              (initial Small.env)
    = ((loop_body (H:=Small.core) 10000000 Small.frame_quit
                  (initial Small.env)).1, loop_ended s').
Proof.
  eexists. split; [reflexivity|].
  destruct (quit_ends_loop_after_update (H:=Small.core) 10000000
              Small.frame_quit [Small.frame1] (initial Small.env) _
              eq_refl eq_refl)
    as (Hiff & Hstop & _).
  apply Hstop. apply Hiff.
  exists (mkEvent SDL_QUIT 0 0), []. split; [reflexivity|].
  left. reflexivity.
Defined.

(** After sixty frames of a sixtieth of a second each the frame rate
    shown is 59: sixty periods of 166667 ticks are a little more than a
    second of the 10 MHz counter. *)
Lemma first_frame_rate_witness :
  exists s f s',
    iterations (H:=Session.core) (frequency Session.env) Session.frames
               (initial Session.env) !! 59%nat = Some (s, f) /\
    (loop_body (H:=Session.core) (frequency Session.env) f s).2 = Next s' /\
    displayFPS s' = 59.
Proof.
  exists (mkShell (H:=Session.core) tt [] [] 0 0 false 9834353 59 9833353 0 []),
         (Session.frame 59).
  eexists.
  assert (Hit : iterations (H:=Session.core) (frequency Session.env)
                  Session.frames (initial Session.env) !! 59%nat
                = Some (mkShell (H:=Session.core) tt [] [] 0 0 false
                                9834353 59 9833353 0 [],
                        Session.frame 59))
    by (vm_compute; reflexivity).
  split; [exact Hit|]. split; [reflexivity|].
  exact (proj1 (first_frame_rate (H:=Session.core) Session.env Session.frames
                  _ _ _ Hit eq_refl)).
Defined.

(** Of two keys that go down in the same frame the second is polled one
    frame later, ahead of the key that goes down during that frame. *)
Lemma events_polled_in_order_witness :
  exists sp fp later,
    iterations (H:=Small.core) 10000000 [Small.frame_two_keys; Small.frame1]
               (initial Small.env) !! 1%nat = Some (sp, fp) /\
    event_queue sp ++ arrivals fp
    = Small.key SDL_KEYDOWN SDLK_LEFT :: later.
Proof.
  do 2 eexists.
  destruct (events_polled_in_order (H:=Small.core) 10000000
              Small.frame_two_keys [Small.frame1] (initial Small.env)
              [Small.key SDL_KEYDOWN SDLK_UP]
              (Small.key SDL_KEYDOWN SDLK_LEFT) [] _ _ eq_refl eq_refl)
    as (later & Hlater).
  exists later. split; [reflexivity|exact Hlater].
Defined.

(** * The time step never runs backwards *)

Section ElapsedRange.

Context `{Core}.

Lemma loop_body_elapsed freq f s :
  0 <= freq -> Forall elapsed_in_range (loop_body freq f s).1.
Proof.
  intros Hfreq. apply List.Forall_forall. intros c Hin.
  destruct c; try exact I. cbn [elapsed_in_range].
  apply loop_body_time_step in Hin. revert Hin.
  unfold elapsedTimeUnits.
  pose proof (proj2 (Z.shiftr_nonneg freq 8) Hfreq) as Hd.
  destruct (Z.eqb_spec (Z.shiftr freq 8) 0) as [|Hnz]; [discriminate|].
  intros [= <-].
  pose proof (wrap64_range (counter f - tickCounter s)) as Ht.
  split.
  - apply Z.div_pos; lia.
  - apply Z.le_lt_trans with (wrap64 (counter f - tickCounter s)); [|lia].
    rewrite <- (Z.div_1_r (wrap64 (counter f - tickCounter s))) at 2.
    apply Z.div_le_compat_l; lia.
Qed.

(** X16. In every run of [main] on a platform that reports a non-negative
    performance frequency, the time step of every [GameMove] call is a
    64-bit unsigned value, never negative, also when the performance
    counter wraps around between two frames. *)
Theorem move_elapsed_in_range env frames :
  0 <= frequency env ->
  Forall elapsed_in_range (main env frames).1.
Proof.
  intros Hfreq. unfold main.
  destruct (init_result env <? 0); [repeat constructor|].
  destruct (window_created env); simpl negb; cbv iota; [|repeat constructor].
  assert (Hloop : Forall elapsed_in_range
                    (main_loop (frequency env) frames (initial env)).1).
  { rewrite main_loop_calls.
    induction (iterations (frequency env) frames (initial env))
      as [|[s0 f0] its IH]; simpl; [constructor|].
    apply Forall_app. split; [|exact IH].
    now apply loop_body_elapsed. }
  destruct (main_loop _ _ _) as [calls [s0| code | | s0]]; cbn [fst] in *;
    repeat (apply Forall_app; split); try exact Hloop; repeat constructor.
Qed.

End ElapsedRange.

(** The counter wraps around during the first frame: the step is taken
    from the 38 ticks that passed, not from a negative difference. *)
Lemma move_elapsed_in_range_witness :
  Forall elapsed_in_range
    (main (H:=Session.core)
          (mkEnv 0 true 256 (2 ^ 64 - 19) [] []) [mkFrame 0 0 [] 19]).1 /\
  (main (H:=Session.core)
        (mkEnv 0 true 256 (2 ^ 64 - 19) [] []) [mkFrame 0 0 [] 19]).1
    !! 28%nat = Some (call_GameMove 0 0 38).
Proof.
  split.
  - apply (move_elapsed_in_range (H:=Session.core)). discriminate.
  - reflexivity.
Defined.

(** * The order of the phases of a frame *)

Section FrameOrder.

Context `{Core}.

(** Consecutive iterations of a run: the later one starts from the state
    the earlier one ended in. *)
Lemma iterations_chain freq frames s0 k s f s1 f1 :
  iterations freq frames s0 !! k = Some (s, f) ->
  iterations freq frames s0 !! S k = Some (s1, f1) ->
  (loop_body freq f s).2 = Next s1.
Proof.
  revert s0 k. induction frames as [|f0 frames IH]; intros s0 k Hk Hnext.
  - cbn [iterations] in Hk. destruct (isExiting s0); discriminate.
  - apply iterations_later in Hnext.
    destruct Hnext as (_ & s' & Hbody & Hrest).
    destruct k as [|k].
    + apply iterations_first in Hk.
      destruct Hk as (_ & f0' & rest & [= <- <-] & [= -> ->]).
      apply iterations_first in Hrest.
      destruct Hrest as (_ & f' & rest' & _ & [= -> _]).
      exact Hbody.
    + apply iterations_later in Hk.
      destruct Hk as (_ & s'' & Hbody' & Hk).
      rewrite Hbody in Hbody'. injection Hbody' as <-.
      exact (IH s' k Hk Hrest).
Qed.

(** Within an iteration the calls come phase by phase. *)
Lemma loop_body_phases freq f s :
  all_before is_trace is_overlay (loop_body freq f s).1 /\
  all_before is_overlay is_present (loop_body freq f s).1 /\
  all_before is_trace is_present (loop_body freq f s).1 /\
  all_before is_present is_poll (loop_body freq f s).1 /\
  all_before is_poll is_move (loop_body freq f s).1.
Proof.
  destruct (loop_body_paths freq f s)
    as [(Hfix & ->) | [(Hfix & Hflo & ->) | (Hfix & Hflo & ->)]];
    [ | | destruct (update_calls freq (counter f) (handle_events f (render s)))
            as (tail & Hupd & [-> | [-> | ->]]);
          cbn [fst snd]; rewrite Hupd ];
    cbn [fst snd draw_buffer render_calls Z.eqb negb app];
    (split; [apply (all_before_at 2); repeat constructor|]);
    (split; [apply (all_before_at 4); repeat constructor|]);
    (split; [apply (all_before_at 2); repeat constructor|]);
    (split; [apply (all_before_at 13); repeat constructor|]);
    apply (all_before_at 14); repeat constructor.
Qed.

Lemma main_present_first env frames :
  preceded is_input_or_update is_render_present (main env frames).1.
Proof.
  unfold main.
  destruct (init_result env <? 0);
    [apply preceded_none; repeat constructor|].
  destruct (window_created env); simpl negb; cbv iota;
    [|apply preceded_none; repeat constructor].
  pose proof (main_loop_calls (frequency env) frames (initial env)) as Hl.
  assert (Hloop : preceded is_input_or_update is_render_present
                    (main_loop (frequency env) frames (initial env)).1).
  { rewrite Hl. apply preceded_flat_map. intros [s0 f0].
    apply loop_body_present_first. }
  destruct (main_loop _ _ _) as [calls [s0| code | | s0]]; cbn [fst] in *.
  - apply preceded_app; [apply preceded_none; repeat constructor|].
    apply preceded_app; [exact Hloop|].
    apply preceded_none; repeat constructor.
  - apply preceded_app; [apply preceded_none; repeat constructor|exact Hloop].
  - apply preceded_app; [apply preceded_none; repeat constructor|exact Hloop].
  - apply preceded_app; [apply preceded_none; repeat constructor|exact Hloop].
Qed.

(** C4, as the code has it.  Every iteration of the loop begins with the
    two traces followed by the two frame-rate overlays, and within it
    every trace comes before every overlay, every overlay before every
    call that presents a frame buffer, every presentation before the
    poll, and the poll before [GameMove].  An iteration that runs to its
    end makes exactly these seventeen calls: two traces, two overlays,
    lock, copy, unlock and draw for the fixed-point and then the
    floating-point texture, [SDL_RenderPresent], [SDL_PollEvent], the
    two timer reads, [GameMove].  In the trace of a whole run every poll
    and every [GameMove] has an [SDL_RenderPresent] before it, and the
    first iteration traces the game state [GameConstruct] returned: the
    first frame is drawn and presented before any input is read.  Of two
    consecutive iterations the later one traces, in both views, the game
    state the [GameMove] that ends the earlier one produced, with the
    directions the event polled in the earlier one left behind.  In the
    renderer as the design document has it, a trace of a buffer of the
    screen's size gives every pixel of column [x] the colour that the
    hit of the ray cast for column [x] gives its row. *)
Theorem frame_phases_in_program_order freq f s env frames :
  all_before is_trace is_overlay (loop_body freq f s).1 /\
  all_before is_overlay is_present (loop_body freq f s).1 /\
  all_before is_trace is_present (loop_body freq f s).1 /\
  all_before is_present is_poll (loop_body freq f s).1 /\
  all_before is_poll is_move (loop_body freq f s).1 /\
  take 4 (loop_body freq f s).1
  = [call_RendererTraceFrame FloatPoint (game s) floatBuffer_id;
     call_RendererTraceFrame FixedPoint (game s) fixedBuffer_id;
     call_RendererDrawFPS fixedBuffer_id (displayFPS s);
     call_RendererDrawFPS floatBuffer_id (displayFPS s)] /\
  (forall s', (loop_body freq f s).2 = Next s' ->
     exists elapsed,
       (loop_body freq f s).1
       = [call_RendererTraceFrame FloatPoint (game s) floatBuffer_id;
          call_RendererTraceFrame FixedPoint (game s) fixedBuffer_id;
          call_RendererDrawFPS fixedBuffer_id (displayFPS s);
          call_RendererDrawFPS floatBuffer_id (displayFPS s);
          call_SDL_LockTexture fixedTexture;
          call_memcpy fixedTexture fixedBuffer_id
            (take (Z.to_nat (SCREEN_WIDTH * SCREEN_HEIGHT * 4))
                  (buffer_bytes big_endian (rendered_fixed s)));
          call_SDL_UnlockTexture fixedTexture;
          call_SDL_RenderCopy fixedTexture
            (mkRect (0 * SCREEN_SCALE) 0 (SCREEN_WIDTH * SCREEN_SCALE)
                    (SCREEN_HEIGHT * SCREEN_SCALE));
          call_SDL_LockTexture floatTexture;
          call_memcpy floatTexture floatBuffer_id
            (take (Z.to_nat (SCREEN_WIDTH * SCREEN_HEIGHT * 4))
                  (buffer_bytes big_endian (rendered_float s)));
          call_SDL_UnlockTexture floatTexture;
          call_SDL_RenderCopy floatTexture
            (mkRect ((SCREEN_WIDTH + 1) * SCREEN_SCALE) 0
                    (SCREEN_WIDTH * SCREEN_SCALE)
                    (SCREEN_HEIGHT * SCREEN_SCALE));
          call_SDL_RenderPresent; call_SDL_PollEvent;
          call_SDL_GetPerformanceCounter; call_SDL_GetPerformanceFrequency;
          call_GameMove (moveDirection s') (rotateDirection s') elapsed]) /\
  preceded is_input_or_update is_render_present (main env frames).1 /\
  (forall s0 f0,
     iterations (frequency env) frames (initial env) !! 0%nat
       = Some (s0, f0) ->
     game s0 = GameConstruct /\
     (loop_body (frequency env) f0 s0).1 !! 0%nat
       = Some (call_RendererTraceFrame FloatPoint GameConstruct
                                       floatBuffer_id) /\
     (loop_body (frequency env) f0 s0).1 !! 1%nat
       = Some (call_RendererTraceFrame FixedPoint GameConstruct
                                       fixedBuffer_id)) /\
  (forall k sk fk sn fn,
     iterations (frequency env) frames (initial env) !! k = Some (sk, fk) ->
     iterations (frequency env) frames (initial env) !! S k
       = Some (sn, fn) ->
     exists elapsed,
       last (loop_body (frequency env) fk sk).1
       = Some (call_GameMove (moveDirection sn) (rotateDirection sn)
                             elapsed) /\
       game sn
       = GameMove (game sk) (moveDirection sn) (rotateDirection sn)
                  elapsed /\
       (isExiting sn, (moveDirection sn, rotateDirection sn))
       = match event_queue sk ++ arrivals fk with
         | [] => (isExiting sk, (moveDirection sk, rotateDirection sk))
         | event :: _ =>
             process_event event (moveDirection sk) (rotateDirection sk)
         end /\
       (loop_body (frequency env) fn sn).1 !! 0%nat
       = Some (call_RendererTraceFrame FloatPoint (game sn)
                                       floatBuffer_id) /\
       (loop_body (frequency env) fn sn).1 !! 1%nat
       = Some (call_RendererTraceFrame FixedPoint (game sn)
                                       fixedBuffer_id)) /\
  (forall (width height : nat) (Pose Map : Type)
          (cast : Pose -> Map -> nat -> Renderer.RayHit)
          (projection ceiling_color floor_color : Z)
          (wall_color : Z -> bool -> Z) pose map buf,
     length buf = (width * height)%nat ->
     exists out,
       Renderer.TraceFrame width height Pose Map cast projection
                           ceiling_color floor_color wall_color
                           pose map buf = Some out /\
       forall x y, (x < width)%nat -> (y < height)%nat ->
         out !! (y * width + x)%nat
         = Some (Renderer.pixel height projection ceiling_color
                                floor_color wall_color
                                (cast pose map x) y)).
Proof.
  destruct (loop_body_phases freq f s) as (H1 & H2 & H3 & H4 & H5).
  do 5 (split; [assumption|]).
  split; [apply loop_body_render_first|].
  split; [|split; [apply main_present_first|split; [|split]]].
  - intros s' Hnext.
    destruct (loop_body_completed _ _ _ _ Hnext)
      as (_ & _ & elapsed & _ & Hcalls & _).
    exists elapsed. rewrite Hcalls. reflexivity.
  - intros s0 f0 Hfirst. apply iterations_first in Hfirst.
    destruct Hfirst as (_ & f' & rest & _ & [= -> ->]).
    split; [reflexivity|].
    apply (loop_body_traces (frequency env) f' (initial env)).
  - intros k sk fk sn fn Hk Hn.
    pose proof (iterations_chain _ _ _ _ _ _ _ _ Hk Hn) as Hnext.
    destruct (loop_body_completed _ _ _ _ Hnext)
      as (_ & _ & elapsed & _ & Hcalls & Hgame & _).
    pose proof (loop_body_next _ _ _ _ Hnext) as Hupd.
    destruct (update_next _ _ _ _ Hupd) as (Hm & Hr & Hq & _).
    destruct (handle_events_input fk (render sk)) as (_ & Hin).
    cbn [render event_queue moveDirection rotateDirection isExiting] in Hin.
    exists elapsed. split; [rewrite Hcalls; reflexivity|].
    split; [exact Hgame|]. split; [rewrite Hm, Hr, Hq; exact Hin|].
    apply (loop_body_traces (frequency env) fn sn).
  - intros width height Pose Map cast projection ceiling_color floor_color
           wall_color pose map buf Hlen.
    destruct (trace_frame_pixels width height Pose Map cast projection
                ceiling_color floor_color wall_color pose map buf Hlen)
      as (out & Hout & _ & Hpix).
    exists out. split; [exact Hout|]. intros x y Hx Hy.
    destruct (pixel_index width x y Hx) as (Hmod & Hdiv).
    rewrite Hpix by nia. unfold Renderer.color_at.
    now rewrite Hmod, Hdiv.
Qed.

End FrameOrder.

(** The second frame of a run of the small configuration is traced from
    the state one step forward that the first frame's [GameMove] left,
    and column 1 of a traced 2 x 2 frame has the ceiling above the
    floor. *)
Lemma frame_phases_in_program_order_witness :
  (exists (sn : @Shell Small.core) fn,
     iterations (H:=Small.core) (frequency Small.env)
                [Small.frame1; Small.frame_quit] (initial Small.env)
       !! 1%nat = Some (sn, fn) /\
     game sn = Small.Move Small.start 1 0 1 /\
     (loop_body (H:=Small.core) (frequency Small.env) fn sn).1 !! 0%nat
     = Some (@call_RendererTraceFrame Small.core FloatPoint
               (Small.Move Small.start 1 0 1) floatBuffer_id)) /\
  (exists out,
     Small.TraceFrame Small.start [7; 7; 7; 7] = Some out /\
     out !! 1%nat = Some 0xFF303030 /\ out !! 3%nat = Some 0xFF606060).
Proof.
  destruct (frame_phases_in_program_order (H:=Small.core)
              (frequency Small.env) Small.frame1 (initial Small.env)
              Small.env [Small.frame1; Small.frame_quit])
    as (_ & _ & _ & _ & _ & _ & _ & _ & _ & Hnext & Hrender).
  split.
  - do 2 eexists. split; [reflexivity|].
    destruct (Hnext 0%nat _ _ _ _ eq_refl eq_refl)
      as (elapsed & Hlast & Hgame & _ & Htrace & _).
    pose proof (f_equal (fun o => match o with
                                  | Some (call_GameMove _ _ e) => e
                                  | _ => 0
                                  end) Hlast) as He.
    change (1 = elapsed) in He. subst elapsed.
    split; [exact Hgame|exact Htrace].
  - destruct (Hrender 2%nat 2%nat Game.Pose Game.Map Small.cast 64
                0xFF303030 0xFF606060 Small.wall_color
                (Game.pose Small.start) (Game.map Small.start)
                [7; 7; 7; 7] eq_refl) as (out & Hout & Hpix).
    exists out. split; [exact Hout|]. split.
    + apply (Hpix 1%nat 0%nat); lia.
    + apply (Hpix 1%nat 1%nat); lia.
Defined.
